(** * Smart Noise Monitor: the monitoring engine of [main.js] and the
      classifier of [sound_classifier.js], embedded and verified.

    JavaScript numbers are IEEE-754 binary64 values, so they are modelled
    by the kernel's primitive floats; an absent or [undefined] property is
    [None].  Clock readings ([Date.now()]) are integers of milliseconds. *)

From Stdlib Require Import Floats ZArith.
From stdpp Require Import base option list strings gmap.

Set Warnings "-inexact-float".
Local Open Scope string_scope.
Local Open Scope list_scope.

(** ** JavaScript values *)

Module Js.

(** A numeric property: [None] is [undefined]. *)
Definition num : Type := option float.

(** [ToNumber]: [undefined] becomes NaN. *)
Definition to_number (v : num) : float :=
  match v with Some x => x | None => nan end.

(** The relational operators, on operands coerced by [ToNumber]; every
    comparison with NaN is false. *)
Definition lt (a b : num) : bool := PrimFloat.ltb (to_number a) (to_number b).
Definition gt (a b : num) : bool := PrimFloat.ltb (to_number b) (to_number a).
Definition ge (a b : num) : bool := PrimFloat.leb (to_number b) (to_number a).

(** [ToBoolean] of a number: false on +0, -0 and NaN. *)
Definition truthy_float (x : float) : bool :=
  negb (PrimFloat.eqb x 0 || is_nan x).

(** [v || d] for a number [d]. *)
Definition num_or (v : num) (d : float) : float :=
  match v with
  | Some x => if truthy_float x then x else d
  | None => d
  end.

(** [ToBoolean] of a string property: false on [undefined] and on the
    empty string. *)
Definition truthy_str (v : option string) : bool :=
  match v with
  | Some s => negb (String.eqb s "")
  | None => false
  end.

(** [a || b] on string properties. *)
Definition str_or (a b : option string) : option string :=
  if truthy_str a then a else b.

(** [v || d] for a clock value [d]. *)
Definition time_or (v : option Z) (d : Z) : Z :=
  match v with
  | Some t => if (t =? 0)%Z then d else t
  | None => d
  end.

(** A default initialiser ([x = d] in a parameter list or a destructuring
    pattern): taken only when the value is [undefined]. *)
Definition default (d : float) (v : num) : num :=
  match v with Some x => Some x | None => Some d end.

End Js.

(** ** [sound_classifier.js] *)

Module SoundClassifier.

(** The object built by the constructor; [initialized] is set by
    [initialize()] when the model was built and trained without error,
    and stays false when that failed. *)
Record t := { initialized : bool }.

Definition new : t := {| initialized := false |}.

(** The argument of [classify]: the object
    [{ noiseLevel, ...audioFeatures }]. *)
Record Features := {
  noiseLevel : Js.num;
  lowFreqEnergy : Js.num;
  midFreqEnergy : Js.num;
  highFreqEnergy : Js.num;
  volatility : Js.num
}.

Record Classification := {
  soundType : string;
  confidence : float
}.

(** [classifyByHeuristic(noiseLevel, lowFreq = 0.2, midFreq = 0.2,
    highFreq = 0.2, volatility = 0.3)] *)
Definition classifyByHeuristic (noiseLevel lowFreq midFreq highFreq volatility : Js.num)
  : string :=
  let lowFreq := Js.default 0.2 lowFreq in
  let midFreq := Js.default 0.2 midFreq in
  let highFreq := Js.default 0.2 highFreq in
  let volatility := Js.default 0.3 volatility in
  if Js.lt noiseLevel (Some 45%float) then "silence"
  else if Js.gt volatility (Some 0.55%float) && Js.gt highFreq (Some 0.5%float)
  then "typing"
  else if Js.gt lowFreq (Some 0.45%float) && Js.gt noiseLevel (Some 72%float)
  then "vehicle"
  else if Js.lt (Some (abs (Js.to_number lowFreq - Js.to_number highFreq)))
                (Some 0.15%float)
          && Js.gt volatility (Some 0.35%float)
          && Js.lt volatility (Some 0.65%float)
  then "music"
  else if Js.gt midFreq (Some 0.5%float) && Js.lt volatility (Some 0.55%float)
          && Js.gt noiseLevel (Some 45%float) && Js.lt noiseLevel (Some 80%float)
  then "speech"
  else "speech".

(** [classify(features)].  The body after the guard cannot throw on an
    object argument, so the [catch] branch is never taken. *)
Definition classify (this : t) (features : Features) : Classification :=
  if negb (initialized this)
  then {| soundType := "unknown"; confidence := 0 |}
  else
    let lowFreqEnergy := Js.default 0.2 (lowFreqEnergy features) in
    let midFreqEnergy := Js.default 0.2 (midFreqEnergy features) in
    let highFreqEnergy := Js.default 0.2 (highFreqEnergy features) in
    let volatility := Js.default 0.3 (volatility features) in
    let soundType :=
      classifyByHeuristic (noiseLevel features)
        lowFreqEnergy midFreqEnergy highFreqEnergy volatility in
    {| soundType := soundType; confidence := 0.95 |}.

(** *** The decision list of the specification

    The ordered rules as the specification words them, over the five
    inputs after the defaults were filled in; the first rule whose
    condition holds gives the label. *)
Module Rules.

Record Inputs := {
  noise : Js.num;
  low : float;
  mid : float;
  high : float;
  vol : float
}.

Definition fill (noiseLevel lowFreq midFreq highFreq volatility : Js.num) : Inputs :=
  {| noise := noiseLevel;
     low := match lowFreq with Some x => x | None => 0.2%float end;
     mid := match midFreq with Some x => x | None => 0.2%float end;
     high := match highFreq with Some x => x | None => 0.2%float end;
     vol := match volatility with Some x => x | None => 0.3%float end |}.

Definition rule : Type := (Inputs → bool) * string.

Definition ordered : list rule :=
  [ (λ i, Js.lt (noise i) (Some 45%float), "silence");
    (λ i, PrimFloat.ltb 0.55 (vol i) && PrimFloat.ltb 0.5 (high i), "typing");
    (λ i, PrimFloat.ltb 0.45 (low i) && Js.gt (noise i) (Some 72%float), "vehicle");
    (λ i, PrimFloat.ltb (abs (low i - high i)) 0.15
            && (PrimFloat.ltb 0.35 (vol i) && PrimFloat.ltb (vol i) 0.65), "music");
    (λ i, PrimFloat.ltb 0.5 (mid i) && PrimFloat.ltb (vol i) 0.55
            && (Js.gt (noise i) (Some 45%float) && Js.lt (noise i) (Some 80%float)),
      "speech") ].

Fixpoint first_match (rs : list rule) (otherwise : string) (i : Inputs) : string :=
  match rs with
  | [] => otherwise
  | (cond, label) :: rs' => if cond i then label else first_match rs' otherwise i
  end.

Definition label (i : Inputs) : string := first_match ordered "speech" i.

End Rules.

End SoundClassifier.

(** ** JavaScript objects used as maps

    [devices] is a plain object keyed by device id, modelled as the list
    of its bindings in insertion order, the order in which
    [Object.entries] lists them.  The list is the object as long as no
    key names a property inherited from [Object.prototype] and no key
    spells an integer index (JavaScript lists those first): the
    predicates [ordinary] and [plain], defined with the vocabulary of the
    statements, say so, and the theorems on the content and the order of
    the registry take them as hypotheses. *)

Module Assoc.
Section Assoc.
Context {V : Type}.

Definition t : Type := list (string * V).

(** [o[k]] *)
Fixpoint lookup (k : string) (o : t) : option V :=
  match o with
  | [] => None
  | (k', v) :: o' => if decide (k' = k) then Some v else lookup k o'
  end.

(** An in-place update of the object bound to [k]: [o[k].f = ...]. *)
Fixpoint alter (f : V → V) (k : string) (o : t) : t :=
  match o with
  | [] => []
  | (k', v) :: o' =>
      if decide (k' = k) then (k', f v) :: o' else (k', v) :: alter f k o'
  end.

(** [o[k] = o[k] || v0], for [v0] and the stored values objects (which
    are always truthy): a missing [k] is added last. *)
Definition ensure (k : string) (v0 : V) (o : t) : t :=
  match lookup k o with
  | Some _ => o
  | None => (o ++ [(k, v0)])%list
  end.

(** [Object.keys(o)] *)
Definition keys (o : t) : list string := o.*1.
End Assoc.
Arguments t : clear implicits.
End Assoc.

(** ** [main.js]: data *)

Definition NOISE_THRESHOLD : float := 65.
Definition INACTIVITY_MS : Z := 15000.
(** The period given to [setInterval]. *)
Definition SWEEP_INTERVAL_MS : Z := 5000.

(** The value stored in [devices[deviceId]]: an object whose properties
    are all missing when it is created as [{}]. *)
Module Device.
Record t := {
  lastSeen : option Z;
  tableId : option string;
  lastNoise : Js.num;
  ws : option nat;
  lastSoundType : option string;
  classification : option SoundClassifier.Classification
}.

Definition empty : t :=
  {| lastSeen := None; tableId := None; lastNoise := None; ws := None;
     lastSoundType := None; classification := None |}.

Definition set_lastSeen (v : option Z) (d : t) : t :=
  {| lastSeen := v; tableId := tableId d; lastNoise := lastNoise d; ws := ws d;
     lastSoundType := lastSoundType d; classification := classification d |}.
Definition set_tableId (v : option string) (d : t) : t :=
  {| lastSeen := lastSeen d; tableId := v; lastNoise := lastNoise d; ws := ws d;
     lastSoundType := lastSoundType d; classification := classification d |}.
Definition set_lastNoise (v : Js.num) (d : t) : t :=
  {| lastSeen := lastSeen d; tableId := tableId d; lastNoise := v; ws := ws d;
     lastSoundType := lastSoundType d; classification := classification d |}.
Definition set_ws (v : option nat) (d : t) : t :=
  {| lastSeen := lastSeen d; tableId := tableId d; lastNoise := lastNoise d; ws := v;
     lastSoundType := lastSoundType d; classification := classification d |}.
Definition set_lastSoundType (v : option string) (d : t) : t :=
  {| lastSeen := lastSeen d; tableId := tableId d; lastNoise := lastNoise d; ws := ws d;
     lastSoundType := v; classification := classification d |}.
Definition set_classification (v : option SoundClassifier.Classification) (d : t) : t :=
  {| lastSeen := lastSeen d; tableId := tableId d; lastNoise := lastNoise d; ws := ws d;
     lastSoundType := lastSoundType d; classification := v |}.
End Device.

(** The ingest message, as the handler destructures it.  Properties are
    typed as the ingest schema has them (strings, numbers, one nested
    object); a property that is missing is [None]. *)
Module Msg.
Record AudioFeatures := {
  lowFreqEnergy : Js.num;
  midFreqEnergy : Js.num;
  highFreqEnergy : Js.num;
  volatility : Js.num
}.

Record t := {
  deviceId : option string;
  tableId : option string;
  noiseLevel : Js.num;
  audioFeatures : option AudioFeatures;
  soundType : option string;
  timestamp : option Z
}.
End Msg.

(** What [JSON.parse] returned: [null], an object, or another value
    (a number, a string, a boolean, an array), none of whose properties is
    one the handler reads. *)
Inductive Json :=
  | JsonNull
  | JsonObject (m : Msg.t)
  | JsonOther.

(** An inbound frame: [None] when [JSON.parse] throws on it. *)
Definition Payload : Type := option Json.

(** The events pushed to the renderer, by channel: [device-data],
    [alert] (two types) and [device-offline]. *)
Inductive Event :=
  | device_data (deviceId : string) (tableId : option string) (noiseLevel : Js.num)
      (soundType : string) (timestamp : Z)
  | noise_exceed (deviceId : string) (tableId : option string) (noiseLevel : Js.num)
      (soundType : string) (timestamp : Z)
  | possible_sensor_issue (deviceId : string) (tableId : string) (noiseLevel : float)
      (peers : list (string * float))
  | device_offline (deviceId : string) (tableId : option string).

Definition channel (e : Event) : string :=
  match e with
  | device_data _ _ _ _ _ => "device-data"
  | noise_exceed _ _ _ _ _ | possible_sensor_issue _ _ _ _ => "alert"
  | device_offline _ _ => "device-offline"
  end.

Definition is_noise_exceed (e : Event) : bool :=
  match e with noise_exceed _ _ _ _ _ => true | _ => false end.
Definition is_possible_sensor_issue (e : Event) : bool :=
  match e with possible_sensor_issue _ _ _ _ => true | _ => false end.

(** The module-level variables of [main.js]: the registry, the server's
    set of open connections with the [isAlive] flag of each, the window
    (present or [null]) and the classifier. *)
Record State := {
  devices : Assoc.t Device.t;
  clients : gmap nat bool;
  mainWindow : bool;
  soundClassifier : option SoundClassifier.t
}.

Definition set_devices (devs : Assoc.t Device.t) (st : State) : State :=
  {| devices := devs; clients := clients st; mainWindow := mainWindow st;
     soundClassifier := soundClassifier st |}.
Definition set_clients (cs : gmap nat bool) (st : State) : State :=
  {| devices := devices st; clients := cs; mainWindow := mainWindow st;
     soundClassifier := soundClassifier st |}.
Definition set_mainWindow (w : bool) (st : State) : State :=
  {| devices := devices st; clients := clients st; mainWindow := w;
     soundClassifier := soundClassifier st |}.

(** ** [main.js]: the alert engine and the message handler

    Every push to the renderer is written
    [if (mainWindow) mainWindow.webContents.send(channel, payload)].  The
    handlers below return the events they push, in order; [forward] is
    the guard and the send, applied to them by [step]. *)

(** [x || 'unknown'] *)
Definition str_or_lit (v : option string) (d : string) : string :=
  match v with
  | Some s => if String.eqb s "" then d else s
  | None => d
  end.

(** [checkForMismatch(triggeringDeviceId)] *)
Definition checkForMismatch (devices : Assoc.t Device.t) (triggeringDeviceId : string)
  : list Event :=
  match Assoc.lookup triggeringDeviceId devices with
  | None => []
  | Some triggering =>
      match Device.tableId triggering with
      | None => []
      | Some table =>
          if String.eqb table "" then [] else
          let triggeredNoise := Js.num_or (Device.lastNoise triggering) 0 in
          let otherDevices :=
            filter (λ e, e.1 ≠ triggeringDeviceId ∧ Device.tableId e.2 = Some table)
              devices in
          if (length otherDevices =? 0)%nat then [] else
          let peersLow :=
            forallb (λ e, PrimFloat.ltb (Js.num_or (Device.lastNoise e.2) 0)
                            (NOISE_THRESHOLD - 10)%float) otherDevices in
          if PrimFloat.leb NOISE_THRESHOLD triggeredNoise && peersLow
          then [possible_sensor_issue triggeringDeviceId table triggeredNoise
                  ((λ e, (e.1, Js.num_or (Device.lastNoise e.2) 0)) <$> otherDevices)]
          else []
      end
  end.

(** The object [{ noiseLevel, ...audioFeatures }] handed to [classify]. *)
Definition features_of (noiseLevel : Js.num) (audioFeatures : Msg.AudioFeatures)
  : SoundClassifier.Features :=
  {| SoundClassifier.noiseLevel := noiseLevel;
     SoundClassifier.lowFreqEnergy := Msg.lowFreqEnergy audioFeatures;
     SoundClassifier.midFreqEnergy := Msg.midFreqEnergy audioFeatures;
     SoundClassifier.highFreqEnergy := Msg.highFreqEnergy audioFeatures;
     SoundClassifier.volatility := Msg.volatility audioFeatures |}.

(** The value of [classifiedSoundType] once lines 181 to 192 have run. *)
Definition classifiedSoundType (soundClassifier : option SoundClassifier.t) (data : Msg.t)
  : string :=
  match soundClassifier, Msg.audioFeatures data with
  | Some sc, Some audioFeatures =>
      SoundClassifier.soundType
        (SoundClassifier.classify sc (features_of (Msg.noiseLevel data) audioFeatures))
  | _, _ => str_or_lit (Msg.soundType data) "unknown"
  end.

(** What the same lines store in [devices[deviceId]]. *)
Definition record_sound (soundClassifier : option SoundClassifier.t) (data : Msg.t)
    (deviceId : string) (devices : Assoc.t Device.t) : Assoc.t Device.t :=
  match soundClassifier, Msg.audioFeatures data with
  | Some sc, Some audioFeatures =>
      let classification :=
        SoundClassifier.classify sc (features_of (Msg.noiseLevel data) audioFeatures) in
      let devices :=
        Assoc.alter
          (Device.set_lastSoundType (Some (SoundClassifier.soundType classification)))
          deviceId devices in
      Assoc.alter (Device.set_classification (Some classification)) deviceId devices
  | _, _ =>
      if Js.truthy_str (Msg.soundType data)
      then Assoc.alter (Device.set_lastSoundType (Msg.soundType data)) deviceId devices
      else devices
  end.

(** Lines 174 to 178: the registry entry is created if missing, then four
    of its properties are assigned. *)
Definition upsert (devices : Assoc.t Device.t) (deviceId : string) (data : Msg.t)
    (ws : nat) (now : Z) : Assoc.t Device.t :=
  let devices := Assoc.ensure deviceId Device.empty devices in
  let devices := Assoc.alter (Device.set_lastSeen (Some now)) deviceId devices in
  let devices :=
    Assoc.alter (λ d, Device.set_tableId (Js.str_or (Msg.tableId data) (Device.tableId d)) d)
      deviceId devices in
  let devices := Assoc.alter (Device.set_lastNoise (Msg.noiseLevel data)) deviceId devices in
  Assoc.alter (Device.set_ws (Some ws)) deviceId devices.

(** The body of [ws.on('message', ...)] for the connection [ws], run when
    the clock reads [now].  A frame that does not parse, and [null] (whose
    destructuring throws), end in the [catch] clause, which only logs; a
    value without a truthy [deviceId] returns at the guard. *)
Definition on_message (st : State) (ws : nat) (msg : Payload) (now : Z)
  : State * list Event :=
  match msg with
  | None => (st, [])
  | Some JsonNull => (st, [])
  | Some JsonOther => (st, [])
  | Some (JsonObject data) =>
      match Msg.deviceId data with
      | None => (st, [])
      | Some deviceId =>
          if String.eqb deviceId "" then (st, []) else
          let devices := upsert (devices st) deviceId data ws now in
          let classified := classifiedSoundType (soundClassifier st) data in
          let devices := record_sound (soundClassifier st) data deviceId devices in
          let dataToSend :=
            device_data deviceId (Msg.tableId data) (Msg.noiseLevel data) classified
              (Js.time_or (Msg.timestamp data) now) in
          let alert :=
            if Js.ge (Msg.noiseLevel data) (Some NOISE_THRESHOLD)
            then [noise_exceed deviceId
                    (Assoc.lookup deviceId devices ≫= Device.tableId)
                    (Msg.noiseLevel data) classified
                    (Js.time_or (Msg.timestamp data) now)]
            else [] in
          (set_devices devices st,
           (dataToSend :: alert ++ checkForMismatch devices deviceId)%list)
      end
  end.

(** ** [main.js]: the periodic sweep *)

(** The test of the inactivity loop on one entry: entries without a
    truthy [lastSeen] are skipped. *)
Definition inactive (now : Z) (dev : Device.t) : bool :=
  match Device.lastSeen dev with
  | None => false
  | Some lastSeen =>
      if (lastSeen =? 0)%Z then false else (INACTIVITY_MS <? now - lastSeen)%Z
  end.

(** The loop over [Object.entries(devices)]. *)
Definition inactivity_sweep (devices : Assoc.t Device.t) (now : Z) : list Event :=
  omap (λ e, if inactive now e.2 then Some (device_offline e.1 (Device.tableId e.2)) else None)
    devices.

(** [wss.clients.forEach]: a connection whose flag is false is terminated
    (the server drops it from [clients] when its socket closes); the flag
    of the others is cleared before they are pinged. *)
Definition liveness_sweep (clients : gmap nat bool) : gmap nat bool :=
  omap (λ isAlive : bool, if isAlive then Some false else None) clients.

(** What reaches the outside: an event sent to the renderer, a ping or a
    forced termination of a connection. *)
Inductive Effect :=
  | send (e : Event)
  | ping (ws : nat)
  | terminate (ws : nat).

Definition probes (clients : gmap nat bool) : list Effect :=
  (λ c : nat * bool, if c.2 then ping c.1 else terminate c.1) <$> map_to_list clients.

(** [if (mainWindow) mainWindow.webContents.send(...)], for each event. *)
Definition forward (st : State) (events : list Event) : list Effect :=
  if mainWindow st then send <$> events else [].

(** The callback given to [setInterval]. *)
Definition on_interval (st : State) (now : Z) : State * list Event :=
  (set_clients (liveness_sweep (clients st)) st, inactivity_sweep (devices st) now).

(** ** The server as a transition system *)

Inductive Input :=
  | connection (ws : nat)
  | pong (ws : nat)
  | message (ws : nat) (msg : Payload) (now : Z)
  | close (ws : nat)
  | error (ws : nat)
  | interval (now : Z)
  | window_closed.

Definition step (st : State) (i : Input) : State * list Effect :=
  match i with
  | connection ws => (set_clients (<[ws := true]> (clients st)) st, [])
  | pong ws => (set_clients (alter (λ _, true) ws (clients st)) st, [])
  | message ws msg now =>
      let r := on_message st ws msg now in (r.1, forward st r.2)
  | close ws => (set_clients (delete ws (clients st)) st, [])
  | error ws => (st, [])
  | interval now =>
      let r := on_interval st now in (r.1, (forward st r.2 ++ probes (clients st))%list)
  | window_closed => (set_mainWindow false st, [])
  end.

Definition run (st : State) (inputs : list Input) : State :=
  foldl (λ s i, (step s i).1) st inputs.

(** The state when the server starts listening: [window] tells whether
    [createWindow] succeeded, [trained] whether [initialize()] did. *)
Definition init (window trained : bool) : State :=
  {| devices := []; clients := ∅; mainWindow := window;
     soundClassifier := Some {| SoundClassifier.initialized := trained |} |}.

(** [Date.now()] counts milliseconds from 1970: every reading is positive. *)
Definition clock_ok (i : Input) : Prop :=
  match i with
  | message _ _ now | interval now => (0 < now)%Z
  | _ => True
  end.

Inductive reachable : State → Prop :=
  | reachable_init window trained : reachable (init window trained)
  | reachable_step st i : reachable st → clock_ok i → reachable (step st i).1.

(** ** Vocabulary of the statements *)

(** The worked input of the specification's test section: noise 80, low
    and high band 0.5, volatility 0.9, no mid band. *)
Definition c5_input : SoundClassifier.Rules.Inputs :=
  SoundClassifier.Rules.fill
    (Some 80%float) (Some 0.5%float) None (Some 0.5%float) (Some 0.9%float).

(** The property [deviceId] the handler finds in a frame, if any. *)
Definition deviceId_of (msg : Payload) : option string :=
  match msg with
  | Some (JsonObject data) => Msg.deviceId data
  | _ => None
  end.

(** A frame is accepted for [deviceId] when it parses to the object [data]
    and [data.deviceId] is that non-empty string. *)
Definition accepts (msg : Payload) (deviceId : string) (data : Msg.t) : Prop :=
  msg = Some (JsonObject data) ∧ Msg.deviceId data = Some deviceId ∧ deviceId ≠ "".

(** The entry that lines 174 to 178 leave for a device whose entry was
    [old] (or [{}] when there was none). *)
Definition upserted (old : Device.t) (data : Msg.t) (ws : nat) (now : Z) : Device.t :=
  {| Device.lastSeen := Some now;
     Device.tableId := Js.str_or (Msg.tableId data) (Device.tableId old);
     Device.lastNoise := Msg.noiseLevel data;
     Device.ws := Some ws;
     Device.lastSoundType := Device.lastSoundType old;
     Device.classification := Device.classification old |}.

(** The two sound properties after lines 181 to 192. *)
Definition with_sound (soundClassifier : option SoundClassifier.t) (data : Msg.t)
    (d : Device.t) : Device.t :=
  match soundClassifier, Msg.audioFeatures data with
  | Some sc, Some audioFeatures =>
      let classification :=
        SoundClassifier.classify sc (features_of (Msg.noiseLevel data) audioFeatures) in
      Device.set_classification (Some classification)
        (Device.set_lastSoundType (Some (SoundClassifier.soundType classification)) d)
  | _, _ =>
      if Js.truthy_str (Msg.soundType data)
      then Device.set_lastSoundType (Msg.soundType data) d
      else d
  end.

(** The entry of the sender once the handler has returned. *)
Definition entry_after (st : State) (deviceId : string) (data : Msg.t) (ws : nat) (now : Z)
  : Device.t :=
  with_sound (soundClassifier st) data
    (upserted (default Device.empty (Assoc.lookup deviceId (devices st))) data ws now).

(** The other registry entries that share [table]. *)
Definition peers (devices : Assoc.t Device.t) (table deviceId : string)
  : Assoc.t Device.t :=
  filter (λ e, e.1 ≠ deviceId ∧ Device.tableId e.2 = Some table) devices.

(** The noise the peer comparison reads off an entry: [lastNoise || 0]. *)
Definition peer_noise (d : Device.t) : float := Js.num_or (Device.lastNoise d) 0.

(** Below the threshold less ten. *)
Definition quiet (d : Device.t) : bool := PrimFloat.ltb (peer_noise d) 55.

(** Last seen more than [INACTIVITY_MS] before [now]. *)
Definition overdue (now : Z) (d : Device.t) : bool :=
  match Device.lastSeen d with
  | Some lastSeen => (15000 <? now - lastSeen)%Z
  | None => false
  end.

(** Every entry carries the positive clock reading of its last message. *)
Definition stamped (devices : Assoc.t Device.t) : Prop :=
  ∀ e, e ∈ devices → ∃ t, Device.lastSeen e.2 = Some t ∧ (0 < t)%Z.

(** Messages used as examples. *)
Module Example.
Definition bare (deviceId : string) : Msg.t :=
  {| Msg.deviceId := Some deviceId; Msg.tableId := None; Msg.noiseLevel := None;
     Msg.audioFeatures := None; Msg.soundType := None; Msg.timestamp := None |}.

Definition reading (deviceId table : string) (noise : float) (timestamp : Z) : Msg.t :=
  {| Msg.deviceId := Some deviceId; Msg.tableId := Some table;
     Msg.noiseLevel := Some noise; Msg.audioFeatures := None;
     Msg.soundType := None; Msg.timestamp := Some timestamp |}.

(** A message that names a table but reports no noise. *)
Definition joins (deviceId table : string) : Msg.t :=
  {| Msg.deviceId := Some deviceId; Msg.tableId := Some table; Msg.noiseLevel := None;
     Msg.audioFeatures := None; Msg.soundType := None; Msg.timestamp := None |}.

Definition frame (data : Msg.t) : Payload := Some (JsonObject data).
End Example.

(** The payload of [device-offline] for a registry entry. *)
Definition offline_notice (e : string * Device.t) : Event :=
  device_offline e.1 (Device.tableId e.2).

(** An input that is neither a pong from [ws] nor the acceptance of [ws]. *)
Definition no_pong_from (ws : nat) (i : Input) : Prop :=
  match i with
  | pong ws' | connection ws' => ws' ≠ ws
  | _ => True
  end.

(** ** [main.js]: start-up helpers *)

(** What [net.createServer().listen(port)] reports: the [listening] event,
    or an [error] event whose [code] is given. *)
Inductive Listen :=
  | listening
  | listen_error (code : string).

(** How the promise of [findFreePort] settles: resolved with a port,
    rejected with [new Error('No free port found')], or rejected with the
    error of the probe. *)
Inductive PortSearch :=
  | resolved (port : Z)
  | no_free_port
  | rejected (code : string).

(** [tryPort], the closure of [findFreePort], with its captured variable
    [port]; [remaining] is [startPort + maxAttempts - port], so the test
    [port > startPort + maxAttempts] after [port++] is [remaining = 0]. *)
Fixpoint tryPort (listen : Z → Listen) (remaining : nat) (port : Z) : PortSearch :=
  match listen port with
  | listening => resolved port
  | listen_error code =>
      if String.eqb code "EADDRINUSE"
      then match remaining with
           | O => no_free_port
           | S remaining' => tryPort listen remaining' (port + 1)
           end
      else rejected code
  end.

(** [findFreePort(startPort, maxAttempts = 50)] *)
Definition findFreePort (listen : Z → Listen) (startPort : Z) (maxAttempts : nat)
  : PortSearch :=
  tryPort listen maxAttempts startPort.

(** The initial value of [PORT], and the call made by
    [startWebSocketServer]. *)
Definition PORT : Z := 8080.
Definition selected_port (listen : Z → Listen) : PortSearch := findFreePort listen PORT 50.

(** An entry of [os.networkInterfaces()[name]]. *)
Module NetInfo.
Record t := { internal : bool; family : string }.
End NetInfo.

(** The inner loop of [getPrimaryInterfaceName] returns as soon as it
    meets an address that is not internal and of family [IPv4]. *)
Definition external_IPv4 (addresses : list NetInfo.t) : bool :=
  existsb (λ ni, negb (NetInfo.internal ni) && String.eqb (NetInfo.family ni) "IPv4")
    addresses.

(** The outer loop, over [Object.keys(nets)]. *)
Fixpoint first_external (names : list string) (nets : Assoc.t (list NetInfo.t))
  : option string :=
  match names with
  | [] => None
  | name :: names' =>
      if external_IPv4 (default [] (Assoc.lookup name nets)) then Some name
      else first_external names' nets
  end.

(** [getPrimaryInterfaceName()], on the value of [os.networkInterfaces()]. *)
Definition getPrimaryInterfaceName (nets : Assoc.t (list NetInfo.t)) : option string :=
  first_external (Assoc.keys nets) nets.

(** ** [sound_classifier.js]: the labels and the training patterns *)

Module Training.

(** [this.labels] *)
Definition labels : list string := ["speech"; "music"; "vehicle"; "typing"; "silence"].

(** An element of [trainingData]: the five features, in the order
    noise level, low, mid and high band energy, volatility, and the index
    of the label. *)
Record Pattern := {
  noiseLevel : float;
  lowFreqEnergy : float;
  midFreqEnergy : float;
  highFreqEnergy : float;
  volatility : float;
  label : nat
}.

Definition pattern (n l m h v : float) (label : nat) : Pattern :=
  {| noiseLevel := n; lowFreqEnergy := l; midFreqEnergy := m; highFreqEnergy := h;
     volatility := v; label := label |}.

Definition trainingData : list Pattern :=
  [ pattern 65 0.2 0.6 0.2 0.4 0;
    pattern 70 0.15 0.7 0.15 0.35 0;
    pattern 60 0.25 0.5 0.25 0.45 0;
    pattern 75 0.3 0.4 0.3 0.5 1;
    pattern 80 0.35 0.3 0.35 0.55 1;
    pattern 68 0.28 0.44 0.28 0.48 1;
    pattern 85 0.5 0.3 0.2 0.15 2;
    pattern 80 0.55 0.25 0.2 0.1 2;
    pattern 75 0.48 0.32 0.2 0.12 2;
    pattern 55 0.1 0.3 0.6 0.65 3;
    pattern 60 0.12 0.28 0.6 0.7 3;
    pattern 50 0.15 0.25 0.6 0.68 3;
    pattern 35 0.2 0.2 0.2 0.05 4;
    pattern 40 0.25 0.25 0.25 0.08 4;
    pattern 30 0.2 0.2 0.2 0.03 4 ]%float.

(** The label a pattern is trained with, by name. *)
Definition trained_label (p : Pattern) : option string := labels !! label p.

(** The label [classifyByHeuristic] gives to the features of a pattern. *)
Definition heuristic_label (p : Pattern) : string :=
  SoundClassifier.classifyByHeuristic (Some (noiseLevel p)) (Some (lowFreqEnergy p))
    (Some (midFreqEnergy p)) (Some (highFreqEnergy p)) (Some (volatility p)).

End Training.

(** ** Vocabulary of the further statements *)

(** Everything that reaches the outside along a sequence of inputs. *)
Fixpoint effects (st : State) (inputs : list Input) : list Effect :=
  match inputs with
  | [] => []
  | i :: inputs' => (step st i).2 ++ effects (step st i).1 inputs'
  end.

Definition is_send (e : Effect) : bool :=
  match e with send _ => true | _ => false end.

(** The device id and the object of a frame the handler accepts. *)
Definition accepted_data (msg : Payload) : option (string * Msg.t) :=
  match msg with
  | Some (JsonObject data) =>
      match Msg.deviceId data with
      | Some deviceId => if String.eqb deviceId "" then None else Some (deviceId, data)
      | None => None
      end
  | _ => None
  end.

(** The last accepted message of [deviceId] among the inputs, with its
    connection and the clock reading at its receipt. *)
Definition last_accepted (deviceId : string) (inputs : list Input)
  : option (nat * Msg.t * Z) :=
  foldl
    (λ acc i,
       match i with
       | message ws msg now =>
           match accepted_data msg with
           | Some (id, data) => if decide (id = deviceId) then Some (ws, data, now) else acc
           | None => acc
           end
       | _ => acc
       end)
    None inputs.

(** An input that neither closes [ws] nor is a sweep. *)
Definition calm (ws : nat) (i : Input) : Prop :=
  match i with
  | close ws' => ws' ≠ ws
  | interval _ => False
  | _ => True
  end.

(** One period of the sweep timer during which [ws] answers the ping: the
    sweep at [now], then inputs among which a pong from [ws] arrives. *)
Definition Round : Type := Z * list Input * list Input.

Definition round_inputs (ws : nat) (r : Round) : list Input :=
  interval r.1.1 :: r.1.2 ++ pong ws :: r.2.

Definition answered (ws : nat) (r : Round) : Prop :=
  Forall (calm ws) r.1.2 ∧ Forall (calm ws) r.2.

(** ** The ids on which the list is the object of [main.js]

    [devices] is created as [{}], so it inherits from [Object.prototype]:
    for an id that names an inherited property, line 174 finds a truthy
    value and adds no fresh entry (for [__proto__] the four assignments
    that follow land on [Object.prototype] itself); and
    [Object.entries] lists the keys that are canonical numerals first,
    in numeric order, before the others in insertion order.  The list
    model is the object for the other ids, the [ordinary] ones, and for a
    registry all of whose ids are ordinary; the theorems on the content
    and the order of the registry are stated for those. *)

Definition prototype_names : list string :=
  ["__proto__"; "constructor"; "hasOwnProperty"; "isPrototypeOf";
   "propertyIsEnumerable"; "toLocaleString"; "toString"; "valueOf";
   "__defineGetter__"; "__defineSetter__"; "__lookupGetter__"; "__lookupSetter__"].

Definition is_digit (c : Ascii.ascii) : bool :=
  (48 <=? Ascii.nat_of_ascii c)%nat && (Ascii.nat_of_ascii c <=? 57)%nat.

Fixpoint all_digits (s : string) : bool :=
  match s with
  | EmptyString => true
  | String c s' => is_digit c && all_digits s'
  end.

(** ["0"], or digits that do not start with a zero: the spelling of an
    integer index. *)
Definition canonical_numeral (s : string) : bool :=
  match s with
  | EmptyString => false
  | String c s' =>
      if (Ascii.nat_of_ascii c =? 48)%nat then String.eqb s' ""
      else is_digit c && all_digits s'
  end.

Definition ordinary_b (id : string) : bool :=
  negb (existsb (String.eqb id) prototype_names) && negb (canonical_numeral id).

Definition ordinary (id : string) : Prop := ordinary_b id = true.

Definition plain (devices : Assoc.t Device.t) : Prop :=
  Forall ordinary (Assoc.keys devices).

(** ** What is sent *)

(** The event carried by an effect, when it is a send to the renderer. *)
Definition sent (e : Effect) : option Event :=
  match e with
  | send ev => Some ev
  | _ => None
  end.

(** The events that reach the renderer among the effects of a step. *)
Definition events_sent (effects : list Effect) : list Event := omap sent effects.

Definition is_device_offline (e : Event) : bool :=
  match e with device_offline _ _ => true | _ => false end.

(** An input that is not an accepted message of [deviceId]. *)
Definition silent (deviceId : string) (i : Input) : Prop :=
  match i with
  | message _ msg _ => ∀ data, ¬ accepts msg deviceId data
  | _ => True
  end.

(** An input whose accepted message, if it is one, has an ordinary id. *)
Definition ordinary_input (i : Input) : Prop :=
  match i with
  | message _ msg _ => ∀ deviceId data, accepts msg deviceId data → ordinary deviceId
  | _ => True
  end.

(** A reading with the audio features of the vehicle pattern. *)
Definition vehicle_reading (deviceId table : string) (noise : float) (timestamp : Z)
  : Msg.t :=
  {| Msg.deviceId := Some deviceId; Msg.tableId := Some table;
     Msg.noiseLevel := Some noise;
     Msg.audioFeatures :=
       Some {| Msg.lowFreqEnergy := Some 0.5%float; Msg.midFreqEnergy := Some 0.3%float;
               Msg.highFreqEnergy := Some 0.2%float; Msg.volatility := Some 0.08%float |};
     Msg.soundType := None; Msg.timestamp := Some timestamp |}.

(** * Properties *)

(** ** Order facts on binary64 values *)

Module FloatOrder.

Lemma SFcompare_antisym x y c :
  SFcompare x y = Some c → SFcompare y x = Some (CompOpp c).
Proof.
  destruct x as [sx|sx| |sx mx ex], y as [sy|sy| |sy my ey]; simpl;
    intros H; inversion H; subst; clear H;
    try (destruct sx; reflexivity); try (destruct sy; reflexivity);
    try (destruct sx, sy; reflexivity).
  destruct sx, sy; try reflexivity; f_equal;
    rewrite (Z.compare_antisym ex ey);
    destruct (ex ?= ey)%Z eqn:E; simpl; try reflexivity;
    rewrite (Pos.compare_cont_antisym _ _ Eq); simpl;
    try rewrite CompOpp_involutive; reflexivity.
Qed.

(** [x < y] excludes [y <= x]. *)
Lemma ltb_leb_false x y : (x <? y)%float = true → (y <=? x)%float = false.
Proof.
  rewrite FloatAxioms.ltb_spec, FloatAxioms.leb_spec. unfold SFltb, SFleb.
  destruct (SFcompare (Prim2SF x) (Prim2SF y)) as [[]|] eqn:E; try discriminate.
  intros _. by rewrite (SFcompare_antisym _ _ _ E).
Qed.

(** [y <= x] excludes [x < y]. *)
Lemma leb_ltb_false x y : (y <=? x)%float = true → (x <? y)%float = false.
Proof.
  intros H. destruct (x <? y)%float eqn:E; [|done].
  apply ltb_leb_false in E. congruence.
Qed.

Lemma SFcompare_finite_refl s m e :
  SFcompare (S754_finite s m e) (S754_finite s m e) = Some Eq.
Proof.
  simpl. rewrite Z.compare_refl. replace (Pos.compare_cont Eq m m) with Eq.
  - by destruct s.
  - symmetry. apply Pos.compare_cont_refl.
Qed.

(** A value that is at least a positive number is neither a zero nor
    NaN: it is truthy. *)
Lemma above_positive_truthy c m e x :
  Prim2SF c = S754_finite false m e →
  (c <=? x)%float = true → Js.truthy_float x = true.
Proof.
  intros Hc. unfold Js.truthy_float, is_nan.
  rewrite FloatAxioms.leb_spec, !FloatAxioms.eqb_spec, Hc.
  replace (Prim2SF 0) with (S754_zero false) by (vm_compute; reflexivity).
  unfold SFleb, SFeqb.
  destruct (Prim2SF x) as [s|s| |s m' e'] eqn:E; try (simpl; discriminate).
  - destruct s; [simpl; discriminate | reflexivity].
  - intros _. rewrite SFcompare_finite_refl. by destruct s.
Qed.

Lemma threshold_truthy x :
  (NOISE_THRESHOLD <=? x)%float = true → Js.truthy_float x = true.
Proof. by apply (above_positive_truthy _ 4573968371548160 (-46)). Qed.

End FloatOrder.

(** ** The classifier *)

Section Classifier.
Import SoundClassifier.

Local Ltac split_tests :=
  repeat match goal with
    | |- context [PrimFloat.ltb ?a ?b] => destruct (PrimFloat.ltb a b)
    end.

Lemma classifyByHeuristic_label noiseLevel lowFreq midFreq highFreq volatility :
  classifyByHeuristic noiseLevel lowFreq midFreq highFreq volatility
  = Rules.label (Rules.fill noiseLevel lowFreq midFreq highFreq volatility).
Proof.
  unfold classifyByHeuristic, Rules.label, Rules.ordered, Rules.fill, Rules.first_match,
    Js.gt, Js.lt, Js.default, Js.to_number.
  destruct noiseLevel, lowFreq, midFreq, highFreq, volatility;
    cbn [Rules.noise Rules.low Rules.mid Rules.high Rules.vol fst snd];
    split_tests; reflexivity.
Qed.

(** The defaults of the destructuring pattern in [classify] and those of
    the parameter list of [classifyByHeuristic] are the same, so filling
    them twice changes nothing. *)
Lemma classify_initialized features :
  soundType (classify {| initialized := true |} features)
  = classifyByHeuristic (noiseLevel features) (lowFreqEnergy features)
      (midFreqEnergy features) (highFreqEnergy features) (volatility features).
Proof.
  unfold classify, classifyByHeuristic. cbn [initialized negb soundType].
  by destruct (lowFreqEnergy features), (midFreqEnergy features),
    (highFreqEnergy features), (volatility features).
Qed.

(** Until [initialize()] has succeeded, [classify] answers [unknown]
    and consults no rule. *)
Lemma classify_uninitialized features :
  classify new features = {| soundType := "unknown"; confidence := 0 |}.
Proof. reflexivity. Qed.

(** C1.  For all five inputs, each a number or missing,
    [classifyByHeuristic] returns the label of the first rule, in the
    fixed order silence, typing, vehicle, music, speech, whose condition
    holds, and [speech] when none does; a missing [lowFreqEnergy],
    [midFreqEnergy], [highFreqEnergy] or [volatility] is read as 0.2,
    0.2, 0.2 or 0.3; the function is total, so no input is rejected.
    [classify], once the classifier is initialized, reports that same
    label for the same inputs. *)
Theorem classifier_first_matching_rule_wins
    (noiseLevel lowFreqEnergy midFreqEnergy highFreqEnergy volatility : Js.num) :
  let expected :=
    Rules.first_match Rules.ordered "speech"
      (Rules.fill noiseLevel lowFreqEnergy midFreqEnergy highFreqEnergy volatility) in
  classifyByHeuristic noiseLevel lowFreqEnergy midFreqEnergy highFreqEnergy volatility
  = expected
  ∧ soundType
      (classify {| initialized := true |}
         {| noiseLevel := noiseLevel; lowFreqEnergy := lowFreqEnergy;
            midFreqEnergy := midFreqEnergy; highFreqEnergy := highFreqEnergy;
            volatility := volatility |})
    = expected.
Proof.
  intros expected. split.
  - apply classifyByHeuristic_label.
  - rewrite classify_initialized. apply classifyByHeuristic_label.
Qed.

(** The labels of the five rules, read off the decision list. *)
Lemma rule_labels :
  Rules.ordered.*2 = ["silence"; "typing"; "vehicle"; "music"; "speech"].
Proof. reflexivity. Qed.

Lemma classifier_c5_input_is_not_typing :
  String.eqb
    (classifyByHeuristic (Some 80%float) (Some 0.5%float) None (Some 0.5%float)
       (Some 0.9%float))
    "typing" = false.
Proof. reflexivity. Qed.

(** C5, amended.  On [noiseLevel = 80], [lowFreqEnergy = 0.5],
    [highFreqEnergy = 0.5], [volatility = 0.9] and no [midFreqEnergy],
    the classifier returns [vehicle]: the condition of rule 2 is false
    there (0.5 is not greater than 0.5) and rule 3 is the first that
    matches. *)
Theorem classifier_c5_input_is_vehicle :
  classifyByHeuristic (Some 80%float) (Some 0.5%float) None (Some 0.5%float)
    (Some 0.9%float) = "vehicle"
  ∧ soundType
      (classify {| initialized := true |}
         {| noiseLevel := Some 80%float; lowFreqEnergy := Some 0.5%float;
            midFreqEnergy := None; highFreqEnergy := Some 0.5%float;
            volatility := Some 0.9%float |}) = "vehicle"
  ∧ (λ r : Rules.rule, r.1 c5_input) <$> Rules.ordered
    = [false; false; true; false; false].
Proof. repeat split; reflexivity. Qed.

End Classifier.


(** ** Objects as insertion-ordered maps *)

Module AssocFacts.
Section AssocFacts.
Context {V : Type}.
Implicit Types (o : Assoc.t V) (k : string) (f : V → V).

Lemma lookup_alter f k k' o :
  Assoc.lookup k' (Assoc.alter f k o)
  = if decide (k = k') then f <$> Assoc.lookup k' o else Assoc.lookup k' o.
Proof.
  induction o as [|[k0 v] o IH]; simpl.
  - by case_decide.
  - repeat (case_decide; simplify_eq/=); try done;
      rewrite ?IH; repeat (case_decide; simplify_eq/=); done.
Qed.

Lemma keys_alter f k o : Assoc.keys (Assoc.alter f k o) = Assoc.keys o.
Proof.
  unfold Assoc.keys. induction o as [|[k0 v] o IH]; simpl; [done|].
  case_decide; simpl; [done|]. by f_equal.
Qed.

Lemma lookup_app k o1 o2 :
  Assoc.lookup k (o1 ++ o2)
  = match Assoc.lookup k o1 with
    | Some v => Some v
    | None => Assoc.lookup k o2
    end.
Proof.
  induction o1 as [|[k0 v] o1 IH]; simpl; [done|]. by case_decide.
Qed.

Lemma lookup_ensure k k' v0 o :
  Assoc.lookup k' (Assoc.ensure k v0 o)
  = match Assoc.lookup k' o with
    | Some v => Some v
    | None => if decide (k = k') then Some v0 else None
    end.
Proof.
  unfold Assoc.ensure. destruct (Assoc.lookup k o) eqn:E.
  - destruct (Assoc.lookup k' o) eqn:E'; [done|].
    case_decide; [congruence | done].
  - rewrite lookup_app. destruct (Assoc.lookup k' o); [done|].
    simpl. by case_decide.
Qed.

Lemma keys_ensure k v0 o :
  Assoc.keys (Assoc.ensure k v0 o)
  = match Assoc.lookup k o with
    | Some _ => Assoc.keys o
    | None => Assoc.keys o ++ [k]
    end.
Proof.
  unfold Assoc.ensure, Assoc.keys. destruct (Assoc.lookup k o); [done|].
  by rewrite fmap_app.
Qed.

Lemma lookup_None k o : Assoc.lookup k o = None ↔ k ∉ Assoc.keys o.
Proof.
  unfold Assoc.keys. induction o as [|[k0 v] o IH]; simpl.
  - split; [intros _; apply not_elem_of_nil | done].
  - rewrite not_elem_of_cons. destruct (decide (k0 = k)) as [->|Hne].
    + split; [done|]. intros [Hk _]. by destruct Hk.
    + rewrite IH. split; [intros ?; split; [congruence | done] | by intros [_ ?]].
Qed.

Lemma lookup_Some_elem k v o : Assoc.lookup k o = Some v → (k, v) ∈ o.
Proof.
  induction o as [|[k0 v0] o IH]; simpl; [done|].
  case_decide; subst.
  - intros ?. simplify_eq. apply list_elem_of_here.
  - intros H'. apply list_elem_of_further. by apply IH.
Qed.

Lemma elem_lookup k v o : NoDup (Assoc.keys o) → (k, v) ∈ o → Assoc.lookup k o = Some v.
Proof.
  unfold Assoc.keys. induction o as [|[k0 v0] o IH]; simpl.
  - intros _ H. by apply elem_of_nil in H.
  - intros Hnd Hin. apply NoDup_cons in Hnd as [Hk0 Hnd].
    apply elem_of_cons in Hin as [[= -> ->]|Hin].
    + by rewrite decide_True.
    + rewrite decide_False; [by apply IH|].
      intros ->. apply Hk0. apply list_elem_of_fmap. by exists (k, v).
Qed.

Lemma elem_keys k v o : (k, v) ∈ o → k ∈ Assoc.keys o.
Proof. intros H. apply list_elem_of_fmap. by exists (k, v). Qed.

End AssocFacts.
End AssocFacts.


(** ** The registry upsert *)

Section Upsert.
Implicit Types (st : State) (data : Msg.t) (ws : nat) (now : Z).

Lemma lookup_upsert devs deviceId data ws now id :
  Assoc.lookup id (upsert devs deviceId data ws now)
  = if decide (deviceId = id)
    then Some (upserted (default Device.empty (Assoc.lookup deviceId devs)) data ws now)
    else Assoc.lookup id devs.
Proof.
  unfold upsert. rewrite !AssocFacts.lookup_alter, AssocFacts.lookup_ensure.
  case_decide; subst.
  - by destruct (Assoc.lookup id devs).
  - by destruct (Assoc.lookup id devs).
Qed.

Lemma keys_upsert devs deviceId data ws now :
  Assoc.keys (upsert devs deviceId data ws now)
  = match Assoc.lookup deviceId devs with
    | Some _ => Assoc.keys devs
    | None => Assoc.keys devs ++ [deviceId]
    end.
Proof. unfold upsert. by rewrite !AssocFacts.keys_alter, AssocFacts.keys_ensure. Qed.

Lemma lookup_record_sound sc data deviceId devs id :
  Assoc.lookup id (record_sound sc data deviceId devs)
  = if decide (deviceId = id)
    then with_sound sc data <$> Assoc.lookup id devs
    else Assoc.lookup id devs.
Proof.
  unfold record_sound, with_sound.
  destruct sc as [sc|], (Msg.audioFeatures data) as [af|];
    try destruct (Js.truthy_str (Msg.soundType data));
    rewrite ?AssocFacts.lookup_alter; case_decide; try done;
    by destruct (Assoc.lookup id devs).
Qed.

Lemma keys_record_sound sc data deviceId devs :
  Assoc.keys (record_sound sc data deviceId devs) = Assoc.keys devs.
Proof.
  unfold record_sound.
  destruct sc as [sc|], (Msg.audioFeatures data) as [af|];
    try destruct (Js.truthy_str (Msg.soundType data));
    by rewrite ?AssocFacts.keys_alter.
Qed.

(** The handler on an accepted frame, in one equation. *)
Lemma on_message_accepted st ws msg now deviceId data :
  accepts msg deviceId data →
  on_message st ws msg now
  = let devs :=
      record_sound (soundClassifier st) data deviceId
        (upsert (devices st) deviceId data ws now) in
    let classified := classifiedSoundType (soundClassifier st) data in
    let timestamp := Js.time_or (Msg.timestamp data) now in
    (set_devices devs st,
     device_data deviceId (Msg.tableId data) (Msg.noiseLevel data) classified timestamp
     :: (if Js.ge (Msg.noiseLevel data) (Some NOISE_THRESHOLD)
         then [noise_exceed deviceId (Assoc.lookup deviceId devs ≫= Device.tableId)
                 (Msg.noiseLevel data) classified timestamp]
         else [])
     ++ checkForMismatch devs deviceId).
Proof.
  intros (-> & Hid & Hne). unfold on_message. rewrite Hid.
  by rewrite (proj2 (String.eqb_neq deviceId "") Hne).
Qed.

Lemma lookup_after_message st ws msg now deviceId data id :
  accepts msg deviceId data →
  Assoc.lookup id (devices (on_message st ws msg now).1)
  = if decide (deviceId = id)
    then Some (entry_after st deviceId data ws now)
    else Assoc.lookup id (devices st).
Proof.
  intros Hacc. rewrite (on_message_accepted _ _ _ _ _ _ Hacc). simpl.
  rewrite lookup_record_sound, lookup_upsert. by case_decide.
Qed.

Lemma keys_after_message st ws msg now deviceId data :
  accepts msg deviceId data →
  Assoc.keys (devices (on_message st ws msg now).1)
  = match Assoc.lookup deviceId (devices st) with
    | Some _ => Assoc.keys (devices st)
    | None => Assoc.keys (devices st) ++ [deviceId]
    end.
Proof.
  intros Hacc. rewrite (on_message_accepted _ _ _ _ _ _ Hacc). simpl.
  by rewrite keys_record_sound, keys_upsert.
Qed.

(** A frame is either accepted or without a truthy [deviceId]. *)
Lemma accepted_or_rejected msg :
  (∃ deviceId data, accepts msg deviceId data)
  ∨ Js.truthy_str (deviceId_of msg) = false.
Proof.
  destruct msg as [[|data|]|]; simpl; auto.
  destruct (Msg.deviceId data) as [id|] eqn:E; simpl; auto.
  destruct (String.eqb_spec id ""); simpl; auto.
  left. by exists id, data.
Qed.

Lemma on_message_rejected st ws msg now :
  Js.truthy_str (deviceId_of msg) = false → on_message st ws msg now = (st, []).
Proof.
  destruct msg as [[|data|]|]; simpl; try done.
  destruct (Msg.deviceId data) as [id|]; simpl; [|done].
  by destruct (String.eqb id "").
Qed.

(** C4 fails as stated: in the first exchange the message carries the
    timestamp 1000 and is received at 5000, and the entry's [lastSeen]
    is 5000; in the second, a message without [noiseLevel] follows a
    reading of 70, and the entry's [lastNoise] is overwritten with
    [undefined]. *)
Lemma upsert_lastSeen_and_lastNoise_counterexample :
  let st1 := (on_message (init true true) 1
                (Example.frame (Example.reading "d1" "T1" 70 1000)) 5000).1 in
  let st2 := (on_message st1 1 (Example.frame (Example.bare "d1")) 6000).1 in
  Msg.timestamp (Example.reading "d1" "T1" 70 1000) = Some 1000%Z
  ∧ Assoc.lookup "d1" (devices st1) ≫= Device.lastSeen = Some 5000%Z
  ∧ Device.lastNoise <$> Assoc.lookup "d1" (devices st1) = Some (Some 70%float)
  ∧ Msg.noiseLevel (Example.bare "d1") = None
  ∧ Device.lastNoise <$> Assoc.lookup "d1" (devices st2) = Some None
  ∧ Assoc.lookup "d1" (devices st2) ≫= Device.tableId = Some "T1".
Proof. repeat split; reflexivity. Qed.

(** A registry of ordinary ids stays one when the sender's id is
    ordinary. *)
Lemma plain_after_message st ws msg now :
  plain (devices st) →
  (∀ deviceId data, accepts msg deviceId data → ordinary deviceId) →
  plain (devices (on_message st ws msg now).1).
Proof.
  intros Hplain Hid. unfold plain.
  destruct (accepted_or_rejected msg) as [(deviceId & data & Hacc)|Hrej];
    [|by rewrite (on_message_rejected _ _ _ _ Hrej)].
  rewrite (keys_after_message _ _ _ _ _ _ Hacc).
  destruct (Assoc.lookup deviceId (devices st)); [done|].
  apply Forall_app. split; [done|]. apply Forall_singleton. by apply (Hid _ data).
Qed.

(** C4, amended.  Let the registry hold ordinary ids only, and let an
    accepted message carry an ordinary [deviceId] (not the name of a
    property of [Object.prototype], not a numeral).  After it the
    sender's entry has [lastSeen] equal to the receipt time, whatever
    timestamp the message carries; its [tableId] is the message's when
    that is a non-empty string and the prior one otherwise; its
    [lastNoise] is the message's [noiseLevel], also when the message has
    none; its [ws] is the connection; [lastSoundType] and
    [classification] are overwritten when the classifier ran,
    [lastSoundType] alone when the message carries a [soundType]
    instead, and both keep their prior values otherwise.  Every other
    entry is unchanged, and the registry still holds ordinary ids
    only. *)
Theorem upsert_sets_receipt_time_and_present_fields
    st ws msg now deviceId data
    (Hacc : accepts msg deviceId data)
    (Hid : ordinary deviceId)
    (Hplain : plain (devices st)) :
  let old := default Device.empty (Assoc.lookup deviceId (devices st)) in
  let devs := devices (on_message st ws msg now).1 in
  (∃ d, Assoc.lookup deviceId devs = Some d
        ∧ Device.lastSeen d = Some now
        ∧ Device.tableId d
          = (if Js.truthy_str (Msg.tableId data) then Msg.tableId data
             else Device.tableId old)
        ∧ Device.lastNoise d = Msg.noiseLevel data
        ∧ Device.ws d = Some ws
        ∧ match soundClassifier st, Msg.audioFeatures data with
          | Some sc, Some af =>
              let c := SoundClassifier.classify sc
                         (features_of (Msg.noiseLevel data) af) in
              Device.lastSoundType d = Some (SoundClassifier.soundType c)
              ∧ Device.classification d = Some c
          | _, _ =>
              Device.lastSoundType d
              = (if Js.truthy_str (Msg.soundType data) then Msg.soundType data
                 else Device.lastSoundType old)
              ∧ Device.classification d = Device.classification old
          end)
  ∧ (∀ id, id ≠ deviceId → Assoc.lookup id devs = Assoc.lookup id (devices st))
  ∧ plain devs.
Proof.
  intros old devs. subst devs. split; [|split].
  - exists (entry_after st deviceId data ws now).
    rewrite (lookup_after_message _ _ _ _ _ _ _ Hacc), decide_True by done.
    unfold entry_after, with_sound. fold old.
    destruct (soundClassifier st) as [sc|], (Msg.audioFeatures data) as [af|];
      try destruct (Js.truthy_str (Msg.soundType data)); done.
  - intros id Hne.
    by rewrite (lookup_after_message _ _ _ _ _ _ _ Hacc), decide_False.
  - apply plain_after_message; [done|]. intros id' data' Hacc'.
    destruct Hacc as (-> & Hdev & _), Hacc' as (Hmsg & Hdev' & _).
    injection Hmsg as <-. by simplify_eq.
Qed.

Lemma upsert_sets_receipt_time_and_present_fields_witness :
  accepts (Example.frame (Example.reading "d1" "T1" 70 1000)) "d1"
    (Example.reading "d1" "T1" 70 1000)
  ∧ ordinary "d1"
  ∧ plain (devices (init true true))
  ∧ ∃ d, Assoc.lookup "d1"
           (devices (on_message (init true true) 1
                       (Example.frame (Example.reading "d1" "T1" 70 1000)) 5000).1)
         = Some d
         ∧ Device.lastSeen d = Some 5000%Z.
Proof.
  assert (Hacc : accepts (Example.frame (Example.reading "d1" "T1" 70 1000)) "d1"
                   (Example.reading "d1" "T1" 70 1000)) by done.
  assert (Hid : ordinary "d1") by reflexivity.
  assert (Hplain : plain (devices (init true true))) by constructor.
  split; [exact Hacc|]. split; [exact Hid|]. split; [exact Hplain|].
  destruct (upsert_sets_receipt_time_and_present_fields
              (init true true) 1 _ 5000%Z _ _ Hacc Hid Hplain)
    as [(d & Hd & Hseen & _) _].
  by exists d.
Defined.

End Upsert.


(** ** Rejected frames and the threshold rule *)

Section Handler.
Implicit Types (st : State) (data : Msg.t) (ws : nat) (now : Z).

(** What the renderer receives of the events a handler pushes: all of
    them, in order, while a window exists, and none without one. *)
Lemma forward_window st events :
  forward st events = if mainWindow st then send <$> events else [].
Proof. reflexivity. Qed.

Lemma step_message_effects st ws msg now :
  (step st (message ws msg now)).2 = forward st (on_message st ws msg now).2.
Proof. reflexivity. Qed.

Lemma step_interval_effects st now :
  (step st (interval now)).2
  = forward st (on_interval st now).2 ++ probes (clients st).
Proof. reflexivity. Qed.

(** C8.  A frame that does not parse, or that parses to a value without
    a [deviceId] (or with an empty one), changes nothing: the handler
    returns the state it was given (registry, connections and their
    flags) and pushes no event, and the server's step for it has no
    effect at all, so the connection stays open. *)
Theorem rejected_frame_changes_nothing st ws msg now
    (Hrej : Js.truthy_str (deviceId_of msg) = false) :
  on_message st ws msg now = (st, [])
  ∧ step st (message ws msg now) = (st, [])
  ∧ clients (step st (message ws msg now)).1 !! ws = clients st !! ws.
Proof.
  pose proof (on_message_rejected st ws msg now Hrej) as H.
  assert (step st (message ws msg now) = (st, [])) as Hstep.
  { simpl. rewrite H. simpl. unfold forward. by destruct (mainWindow st). }
  by rewrite Hstep.
Qed.

Lemma rejected_frame_changes_nothing_witness :
  Js.truthy_str (deviceId_of None) = false
  ∧ step (init true true) (message 1 None 5000) = (init true true, []).
Proof.
  split; [reflexivity|].
  exact (proj1 (proj2 (rejected_frame_changes_nothing
                         (init true true) 1 None 5000%Z eq_refl))).
Defined.

(** The two rejections that the specification names. *)
Lemma undecodable_rejected : Js.truthy_str (deviceId_of None) = false.
Proof. reflexivity. Qed.

Lemma missing_deviceId_rejected (j : Json) :
  deviceId_of (Some j) = None → Js.truthy_str (deviceId_of (Some j)) = false.
Proof. by intros ->. Qed.

Lemma checkForMismatch_only_sensor_issues devs id :
  Forall (λ e, is_possible_sensor_issue e = true) (checkForMismatch devs id).
Proof.
  unfold checkForMismatch.
  repeat match goal with
    | |- Forall _ (match ?x with _ => _ end) => destruct x
    end; repeat constructor.
Qed.

Lemma filter_noise_exceed_mismatch devs id :
  List.filter is_noise_exceed (checkForMismatch devs id) = [].
Proof.
  pose proof (checkForMismatch_only_sensor_issues devs id) as H.
  induction H as [|e l He _ IH]; simpl; [done|].
  rewrite IH. by destruct e.
Qed.

Lemma filter_sensor_issue_mismatch devs id :
  List.filter is_possible_sensor_issue (checkForMismatch devs id)
  = checkForMismatch devs id.
Proof.
  pose proof (checkForMismatch_only_sensor_issues devs id) as H.
  induction H as [|e l He _ IH]; simpl; [done|].
  by rewrite He, IH.
Qed.

Lemma events_sent_forward st events :
  events_sent (forward st events) = if mainWindow st then events else [].
Proof.
  unfold forward, events_sent. destruct (mainWindow st); [|done].
  induction events as [|e events IH]; [done|]. simpl. by f_equal.
Qed.

Lemma events_sent_probes (cs : gmap nat bool) : events_sent (probes cs) = [].
Proof.
  unfold probes, events_sent.
  induction (map_to_list cs) as [|[ws []] l IH]; done.
Qed.

Lemma events_sent_app effects1 effects2 :
  events_sent (effects1 ++ effects2) = events_sent effects1 ++ events_sent effects2.
Proof. unfold events_sent. apply omap_app. Qed.

(** The label that lines 181 to 192 compute, in terms of the rule list:
    the classifier's when it exists and the message has audio features,
    else the producer's when that is not empty, else [unknown]. *)
Lemma classifiedSoundType_label sc data :
  classifiedSoundType sc data
  = match sc, Msg.audioFeatures data with
    | Some sc, Some af =>
        if SoundClassifier.initialized sc
        then SoundClassifier.Rules.label
               (SoundClassifier.Rules.fill (Msg.noiseLevel data)
                  (Msg.lowFreqEnergy af) (Msg.midFreqEnergy af)
                  (Msg.highFreqEnergy af) (Msg.volatility af))
        else "unknown"
    | _, _ =>
        match Msg.soundType data with
        | Some s => if String.eqb s "" then "unknown" else s
        | None => "unknown"
        end
    end.
Proof.
  unfold classifiedSoundType. destruct sc as [[[]]|], (Msg.audioFeatures data) as [af|];
    try reflexivity.
  rewrite classify_initialized. apply classifyByHeuristic_label.
Qed.

(** C3 fails as stated: without a window ([createWindow] failed, or the
    window was closed) an accepted message at noise 70 sends nothing at
    all, so no [noise_exceed] alert is emitted for it. *)
Lemma loud_message_without_window_sends_nothing :
  accepts (Example.frame (Example.reading "d1" "T1" 70 1000)) "d1"
    (Example.reading "d1" "T1" 70 1000)
  ∧ Js.ge (Msg.noiseLevel (Example.reading "d1" "T1" 70 1000)) (Some 65%float) = true
  ∧ (step (init false true)
       (message 1 (Example.frame (Example.reading "d1" "T1" 70 1000)) 5000)).2 = [].
Proof. split; [done|]. split; reflexivity. Qed.

(** C3, amended.  Let the registry hold ordinary ids only and the
    accepted message carry an ordinary [deviceId].  While a window exists,
    the [noise_exceed] alerts sent to the renderer for the message are:
    exactly one when [noiseLevel >= 65], carrying the sender's id, the
    table of its registry entry (the message's [tableId] when that is not
    empty, else the one recorded before), the noise level, the sound type
    (the label of the rule list when the classifier is initialized and
    the message has audio features, [unknown] when it has them and the
    classifier is not initialized, else the producer's [soundType] when
    that is not empty, else [unknown]) and the message's timestamp (the
    receipt time when it has none); and none otherwise, in particular
    none when [noiseLevel < 65].  Without a window none is sent.  The
    state is arbitrary: nothing remembered from earlier messages
    suppresses the alert. *)
Theorem noise_exceed_sent_once_per_loud_message
    st ws msg now deviceId data
    (Hacc : accepts msg deviceId data)
    (Hid : ordinary deviceId)
    (Hplain : plain (devices st)) :
  let alerts :=
    List.filter is_noise_exceed (events_sent (step st (message ws msg now)).2) in
  let table :=
    Js.str_or (Msg.tableId data) (Assoc.lookup deviceId (devices st) ≫= Device.tableId) in
  let label :=
    match soundClassifier st, Msg.audioFeatures data with
    | Some sc, Some af =>
        if SoundClassifier.initialized sc
        then SoundClassifier.Rules.label
               (SoundClassifier.Rules.fill (Msg.noiseLevel data)
                  (Msg.lowFreqEnergy af) (Msg.midFreqEnergy af)
                  (Msg.highFreqEnergy af) (Msg.volatility af))
        else "unknown"
    | _, _ =>
        match Msg.soundType data with
        | Some s => if String.eqb s "" then "unknown" else s
        | None => "unknown"
        end
    end in
  (mainWindow st = true →
   Js.ge (Msg.noiseLevel data) (Some 65%float) = true →
   alerts = [noise_exceed deviceId table (Msg.noiseLevel data) label
               (Js.time_or (Msg.timestamp data) now)])
  ∧ (Js.ge (Msg.noiseLevel data) (Some 65%float) = false → alerts = [])
  ∧ (Js.lt (Msg.noiseLevel data) (Some 65%float) = true → alerts = [])
  ∧ (mainWindow st = false → alerts = []).
Proof.
  intros alerts table label. subst alerts.
  rewrite step_message_effects, events_sent_forward.
  rewrite (on_message_accepted _ _ _ _ _ _ Hacc). cbn [snd].
  rewrite classifiedSoundType_label. fold label.
  change (Some NOISE_THRESHOLD) with (Some 65%float).
  assert (Assoc.lookup deviceId
            (record_sound (soundClassifier st) data deviceId
               (upsert (devices st) deviceId data ws now)) ≫= Device.tableId = table)
    as ->.
  { rewrite lookup_record_sound, lookup_upsert, !decide_True by done. simpl.
    unfold with_sound, table.
    destruct (soundClassifier st), (Msg.audioFeatures data),
      (Js.truthy_str (Msg.soundType data)), (Assoc.lookup deviceId (devices st));
      reflexivity. }
  assert (∀ window,
            List.filter is_noise_exceed
              (if window : bool
               then device_data deviceId (Msg.tableId data) (Msg.noiseLevel data) label
                      (Js.time_or (Msg.timestamp data) now)
                    :: (if Js.ge (Msg.noiseLevel data) (Some 65%float)
                        then [noise_exceed deviceId table (Msg.noiseLevel data) label
                                (Js.time_or (Msg.timestamp data) now)]
                        else [])
                    ++ checkForMismatch
                         (record_sound (soundClassifier st) data deviceId
                            (upsert (devices st) deviceId data ws now)) deviceId
               else [])
            = if window && Js.ge (Msg.noiseLevel data) (Some 65%float)
              then [noise_exceed deviceId table (Msg.noiseLevel data) label
                      (Js.time_or (Msg.timestamp data) now)]
              else []) as ->.
  { intros [|]; [|done]. cbn [List.filter is_noise_exceed andb].
    rewrite List.filter_app, filter_noise_exceed_mismatch, app_nil_r.
    by destruct (Js.ge _ _). }
  split; [|split; [|split]].
  - by intros -> ->.
  - intros ->. by rewrite andb_false_r.
  - intros Hlt. unfold Js.lt, Js.ge in *.
    by rewrite (FloatOrder.ltb_leb_false _ _ Hlt), andb_false_r.
  - by intros ->.
Qed.

Lemma noise_exceed_sent_once_per_loud_message_witness :
  accepts (Example.frame (vehicle_reading "d1" "T1" 80 1000)) "d1"
    (vehicle_reading "d1" "T1" 80 1000)
  ∧ ordinary "d1"
  ∧ plain (devices (init true true))
  ∧ List.filter is_noise_exceed
      (events_sent
         (step (init true true)
            (message 1 (Example.frame (vehicle_reading "d1" "T1" 80 1000)) 5000)).2)
    = [noise_exceed "d1" (Some "T1") (Some 80%float) "vehicle" 1000].
Proof.
  assert (Hacc : accepts (Example.frame (vehicle_reading "d1" "T1" 80 1000)) "d1"
                   (vehicle_reading "d1" "T1" 80 1000)) by done.
  assert (Hid : ordinary "d1") by reflexivity.
  assert (Hplain : plain (devices (init true true))) by constructor.
  split; [exact Hacc|]. split; [exact Hid|]. split; [exact Hplain|].
  exact (proj1 (noise_exceed_sent_once_per_loud_message
                  (init true true) 1 _ 5000%Z _ _ Hacc Hid Hplain) eq_refl eq_refl).
Defined.

End Handler.


(** ** The peer-consistency rule *)

Section PeerConsistency.
Implicit Types (devs : Assoc.t Device.t) (D : Device.t).

Lemma threshold_less_ten : (NOISE_THRESHOLD - 10)%float = 55%float.
Proof. reflexivity. Qed.

(** Reading [lastNoise || 0] where [lastNoise >= 65] is tested gives the
    same verdict, and the reading itself when the verdict is yes. *)
Lemma num_or_threshold (v : Js.num) :
  PrimFloat.leb NOISE_THRESHOLD (Js.num_or v 0) = Js.ge v (Some NOISE_THRESHOLD)
  ∧ (Js.ge v (Some NOISE_THRESHOLD) = true → Some (Js.num_or v 0) = v).
Proof.
  unfold Js.ge, Js.num_or. destruct v as [x|]; simpl; [|by split].
  destruct (PrimFloat.leb NOISE_THRESHOLD x) eqn:E.
  - by rewrite (FloatOrder.threshold_truthy _ E).
  - destruct (Js.truthy_float x); by split.
Qed.

Lemma forallb_quiet devs :
  forallb (λ e, PrimFloat.ltb (Js.num_or (Device.lastNoise e.2) 0) 55) devs = true
  ↔ Forall (λ e, quiet e.2 = true) devs.
Proof. rewrite forallb_forall, Forall_forall. by setoid_rewrite <- list_elem_of_In. Qed.

(** [checkForMismatch] for a sender that has an entry with a table. *)
Lemma checkForMismatch_with_table devs deviceId D table :
  Assoc.lookup deviceId devs = Some D →
  Device.tableId D = Some table →
  table ≠ "" →
  checkForMismatch devs deviceId
  = if Js.ge (Device.lastNoise D) (Some 65%float)
       && negb (length (peers devs table deviceId) =? 0)%nat
       && forallb (λ e, quiet e.2) (peers devs table deviceId)
    then [possible_sensor_issue deviceId table (Js.to_number (Device.lastNoise D))
            ((λ e, (e.1, peer_noise e.2)) <$> peers devs table deviceId)]
    else [].
Proof.
  intros HD Htable Hne. unfold checkForMismatch. rewrite HD, Htable.
  rewrite (proj2 (String.eqb_neq table "") Hne). fold (peers devs table deviceId).
  destruct (length (peers devs table deviceId) =? 0)%nat;
    [by rewrite andb_false_r|]. simpl. rewrite andb_true_r.
  destruct (num_or_threshold (Device.lastNoise D)) as [-> Hval].
  change (Some NOISE_THRESHOLD) with (Some 65%float) in *.
  destruct (Js.ge (Device.lastNoise D) (Some 65%float)); [|done]. simpl.
  rewrite <- (Hval eq_refl) at 2. done.
Qed.

Lemma checkForMismatch_without_table devs deviceId D :
  Assoc.lookup deviceId devs = Some D →
  Js.truthy_str (Device.tableId D) = false →
  checkForMismatch devs deviceId = [].
Proof.
  intros HD Hfalsy. unfold checkForMismatch. rewrite HD.
  destruct (Device.tableId D) as [table|]; [|done].
  simpl in Hfalsy. by destruct (String.eqb table "").
Qed.

(** A peer whose recorded noise is 55 or more is not quiet, and keeps
    the alert from being pushed. *)
Lemma loud_peer_not_quiet d x :
  Device.lastNoise d = Some x → (55 <=? x)%float = true → quiet d = false.
Proof.
  intros Hx Hge. unfold quiet, peer_noise, Js.num_or. rewrite Hx.
  rewrite (FloatOrder.above_positive_truthy 55 7740561859543040 (-47) x) by done.
  by apply FloatOrder.leb_ltb_false.
Qed.

Lemma loud_peer_blocks_sensor_issue devs deviceId D table p x :
  Assoc.lookup deviceId devs = Some D →
  Device.tableId D = Some table →
  table ≠ "" →
  p ∈ peers devs table deviceId →
  Device.lastNoise p.2 = Some x →
  (55 <=? x)%float = true →
  checkForMismatch devs deviceId = [].
Proof.
  intros HD Htable Hne Hp Hx Hge.
  rewrite (checkForMismatch_with_table _ _ _ _ HD Htable Hne).
  assert (forallb (λ e, quiet e.2) (peers devs table deviceId) = false) as ->;
    [|by rewrite andb_false_r].
  apply not_true_is_false. intros Hall.
  rewrite forallb_forall in Hall. apply list_elem_of_In, Hall in Hp.
  by rewrite (loud_peer_not_quiet _ _ Hx Hge) in Hp.
Qed.

(** The alerts of this type among the events the handler pushes. *)
Lemma sensor_issue_pushed_iff
    st ws msg now deviceId data D table
    (Hacc : accepts msg deviceId data)
    (HD : Assoc.lookup deviceId (devices (on_message st ws msg now).1) = Some D)
    (Htable : Device.tableId D = Some table)
    (Hne : table ≠ "") :
  let pushed := List.filter is_possible_sensor_issue (on_message st ws msg now).2 in
  let others := peers (devices (on_message st ws msg now).1) table deviceId in
  Device.lastNoise D = Msg.noiseLevel data
  ∧ (pushed ≠ [] ↔
       Js.ge (Device.lastNoise D) (Some 65%float) = true
       ∧ others ≠ []
       ∧ Forall (λ e, quiet e.2 = true) others)
  ∧ (pushed ≠ [] →
       ∃ x, Device.lastNoise D = Some x
            ∧ pushed = [possible_sensor_issue deviceId table x
                          ((λ e, (e.1, peer_noise e.2)) <$> others)])
  ∧ (others = [] → pushed = []).
Proof.
  intros pushed others.
  assert (Device.lastNoise D = Msg.noiseLevel data) as Hnoise.
  { rewrite (lookup_after_message _ _ _ _ _ _ _ Hacc), decide_True in HD by done.
    injection HD as <-. unfold entry_after, with_sound.
    by destruct (soundClassifier st), (Msg.audioFeatures data),
      (Js.truthy_str (Msg.soundType data)). }
  assert (pushed = checkForMismatch (devices (on_message st ws msg now).1) deviceId)
    as Hpushed.
  { subst pushed. rewrite (on_message_accepted _ _ _ _ _ _ Hacc).
    cbn [fst snd List.filter is_possible_sensor_issue devices set_devices].
    rewrite List.filter_app, filter_sensor_issue_mismatch.
    by destruct (Js.ge (Msg.noiseLevel data) (Some NOISE_THRESHOLD)). }
  rewrite (checkForMismatch_with_table _ _ _ _ HD Htable Hne) in Hpushed.
  fold others in Hpushed. clearbody pushed others. subst pushed.
  destruct (Js.ge (Device.lastNoise D) (Some 65%float)) eqn:Hge; simpl.
  2: { repeat split; try done. by intros (? & _). }
  destruct (length others =? 0)%nat eqn:Hlen; simpl.
  { apply Nat.eqb_eq, length_zero_iff_nil in Hlen.
    repeat split; try done. by intros (_ & ? & _). }
  destruct (forallb (λ e, quiet e.2) others) eqn:Hq.
  - split; [done|]. split; [|split].
    + split; [|done]. intros _. split; [done|]. split.
      * intros ->. by rewrite Nat.eqb_refl in Hlen.
      * by apply forallb_quiet.
    + intros _. destruct (Device.lastNoise D) as [x|] eqn:E; [by exists x|].
      discriminate Hge.
    + intros ->. by rewrite Nat.eqb_refl in Hlen.
  - repeat split; try done. intros (_ & _ & Hall).
    apply forallb_quiet in Hall. unfold quiet, peer_noise in Hq. congruence.
Qed.


(** C2 fails as stated, twice.  Without a window the alert is not sent
    although the sender is at 70, its table has a peer and that peer is
    at 30.  With a window it is sent although the one peer has no noise
    reading at all, so that its last noise level is not below 55: the
    comparison reads a missing reading as 0. *)
Lemma sensor_issue_window_and_missing_reading_counterexample :
  let m := message 1 (Example.frame (Example.reading "d1" "T1" 70 1000)) 5000 in
  let headless :=
    run (init false true)
      [connection 1; connection 2;
       message 2 (Example.frame (Example.reading "d2" "T1" 30 900)) 4000] in
  let unread :=
    run (init true true)
      [connection 1; connection 2;
       message 2 (Example.frame (Example.joins "d2" "T1")) 4000] in
  Js.ge (Some 70%float) (Some 65%float) = true
  ∧ (λ e, (e.1, Device.lastNoise e.2)) <$> peers (devices (step headless m).1) "T1" "d1"
    = [("d2", Some 30%float)]
  ∧ Js.lt (Some 30%float) (Some 55%float) = true
  ∧ (step headless m).2 = []
  ∧ (λ e, (e.1, Device.lastNoise e.2)) <$> peers (devices (step unread m).1) "T1" "d1"
    = [("d2", None)]
  ∧ Js.lt None (Some 55%float) = false
  ∧ List.filter is_possible_sensor_issue (events_sent (step unread m).2)
    = [possible_sensor_issue "d1" "T1" 70 [("d2", 0%float)]].
Proof. repeat split; reflexivity. Qed.

(** C2, amended.  Let the registry hold ordinary ids only, and let an
    accepted message come from the device with the ordinary id
    [deviceId], whose registry entry [D] then names the table [table].
    A [possible_sensor_issue] alert is sent to the renderer if and only
    if a window exists, [D]'s last noise is at least 65, some other
    registry entry shares [table], and the noise of every such peer, read
    as [lastNoise || 0] (a missing reading counts as 0), is below 55.
    When it is sent there is one such alert, and it carries [deviceId],
    [table], [D]'s noise, and every peer, in registry order, with its id
    and noise (0 for a missing reading); with no peer on the table, or
    without a window, none is sent, whatever the noise. *)
Theorem sensor_issue_sent_iff_loud_among_quiet_peers
    st ws msg now deviceId data D table
    (Hacc : accepts msg deviceId data)
    (Hid : ordinary deviceId)
    (Hplain : plain (devices st))
    (HD : Assoc.lookup deviceId (devices (step st (message ws msg now)).1) = Some D)
    (Htable : Device.tableId D = Some table)
    (Hne : table ≠ "") :
  let alerts :=
    List.filter is_possible_sensor_issue
      (events_sent (step st (message ws msg now)).2) in
  let others := peers (devices (step st (message ws msg now)).1) table deviceId in
  Device.lastNoise D = Msg.noiseLevel data
  ∧ (alerts ≠ [] ↔
       mainWindow st = true
       ∧ Js.ge (Device.lastNoise D) (Some 65%float) = true
       ∧ others ≠ []
       ∧ Forall (λ e, PrimFloat.ltb (Js.num_or (Device.lastNoise e.2) 0) 55 = true)
           others)
  ∧ (alerts ≠ [] →
       ∃ x, Device.lastNoise D = Some x
            ∧ alerts = [possible_sensor_issue deviceId table x
                          ((λ e, (e.1, Js.num_or (Device.lastNoise e.2) 0)) <$> others)])
  ∧ (others = [] → alerts = [])
  ∧ (mainWindow st = false → alerts = []).
Proof.
  intros alerts others. subst alerts others.
  change ((step st (message ws msg now)).1) with ((on_message st ws msg now).1) in *.
  rewrite step_message_effects, events_sent_forward.
  destruct (sensor_issue_pushed_iff st ws msg now deviceId data D table Hacc HD Htable Hne)
    as (Hnoise & Hiff & Hcarries & Hnone).
  split; [done|]. destruct (mainWindow st).
  - split; [|split; [|split]]; [|done|done|done].
    rewrite Hiff. split; [by intros (? & ? & ?) | by intros (_ & ? & ? & ?)].
  - split; [|split; [|split]]; try done. split; [done|]. by intros (? & _).
Qed.

Lemma sensor_issue_sent_iff_loud_among_quiet_peers_witness :
  let st0 := run (init true true)
               [connection 1; connection 2;
                message 2 (Example.frame (Example.reading "d2" "T1" 30 900)) 4000] in
  let data := Example.reading "d1" "T1" 70 1000 in
  accepts (Example.frame data) "d1" data
  ∧ ordinary "d1"
  ∧ plain (devices st0)
  ∧ (∃ D, Assoc.lookup "d1"
            (devices (step st0 (message 1 (Example.frame data) 5000)).1) = Some D
          ∧ Device.tableId D = Some "T1")
  ∧ "T1" ≠ ""
  ∧ List.filter is_possible_sensor_issue
      (events_sent (step st0 (message 1 (Example.frame data) 5000)).2)
    = [possible_sensor_issue "d1" "T1" 70 [("d2", 30%float)]].
Proof.
  intros st0 data.
  assert (Hacc : accepts (Example.frame data) "d1" data) by done.
  assert (Hid : ordinary "d1") by reflexivity.
  assert (Hplain : plain (devices st0)) by (repeat constructor).
  pose (D := entry_after st0 "d1" data 1 5000).
  assert (HD : Assoc.lookup "d1"
                 (devices (step st0 (message 1 (Example.frame data) 5000)).1)
               = Some D) by reflexivity.
  assert (Htable : Device.tableId D = Some "T1") by reflexivity.
  assert (Hne : "T1" ≠ "") by done.
  split; [exact Hacc|]. split; [exact Hid|]. split; [exact Hplain|].
  split; [by exists D|]. split; [exact Hne|].
  destruct (sensor_issue_sent_iff_loud_among_quiet_peers
              st0 1 _ 5000%Z "d1" data D "T1" Hacc Hid Hplain HD Htable Hne)
    as (_ & Hiff & Hcarries & _).
  destruct Hcarries as (x & Hx & ->).
  - apply Hiff. split; [reflexivity|]. split; [reflexivity|]. split; [discriminate|].
    repeat constructor.
  - injection Hx as <-. reflexivity.
Defined.

(** C10.  In the peer comparison a peer without a recorded noise
    (its [lastNoise] is [undefined]) is read as noise 0: it counts as
    quiet, so when the sender's noise is at least 65 and every peer of
    the table either has no reading or is quiet the alert is pushed,
    and the peer is listed in it with noise 0. *)
Theorem peer_without_reading_counts_as_zero
    devs deviceId D table p
    (HD : Assoc.lookup deviceId devs = Some D)
    (Htable : Device.tableId D = Some table)
    (Hne : table ≠ "")
    (Hloud : Js.ge (Device.lastNoise D) (Some 65%float) = true)
    (Hp : p ∈ peers devs table deviceId)
    (Hundefined : Device.lastNoise p.2 = None)
    (Hrest : ∀ q, q ∈ peers devs table deviceId →
                  Device.lastNoise q.2 = None ∨ quiet q.2 = true) :
  peer_noise p.2 = 0%float
  ∧ quiet p.2 = true
  ∧ ∃ x,
      Device.lastNoise D = Some x
      ∧ checkForMismatch devs deviceId
        = [possible_sensor_issue deviceId table x
             ((λ e, (e.1, peer_noise e.2)) <$> peers devs table deviceId)]
      ∧ (p.1, 0%float) ∈ (λ e, (e.1, peer_noise e.2)) <$> peers devs table deviceId.
Proof.
  assert (peer_noise p.2 = 0%float) as Hzero by (unfold peer_noise; by rewrite Hundefined).
  assert (quiet p.2 = true) as Hquiet by (unfold quiet; by rewrite Hzero).
  split; [done|]. split; [done|].
  rewrite (checkForMismatch_with_table _ _ _ _ HD Htable Hne), Hloud.
  assert ((length (peers devs table deviceId) =? 0)%nat = false) as ->.
  { apply Nat.eqb_neq. intros Hlen. apply length_zero_iff_nil in Hlen.
    rewrite Hlen in Hp. by apply elem_of_nil in Hp. }
  assert (forallb (λ e, quiet e.2) (peers devs table deviceId) = true) as ->.
  { apply forallb_forall. intros q Hq%list_elem_of_In.
    destruct (Hrest q Hq) as [Hnone|Hq']; [|done].
    unfold quiet, peer_noise. by rewrite Hnone. }
  simpl. destruct (Device.lastNoise D) as [x|] eqn:E; [|discriminate Hloud].
  exists x. split; [done|]. split; [done|].
  apply list_elem_of_fmap. exists p. by rewrite Hzero.
Qed.

Lemma peer_without_reading_counts_as_zero_witness :
  let devs :=
    devices (run (init true true)
               [connection 1; connection 2;
                message 2 (Example.frame (Example.joins "d2" "T1")) 4000;
                message 1 (Example.frame (Example.reading "d1" "T1" 70 1000)) 5000]) in
  (∃ D p, Assoc.lookup "d1" devs = Some D
          ∧ Device.tableId D = Some "T1"
          ∧ Js.ge (Device.lastNoise D) (Some 65%float) = true
          ∧ p ∈ peers devs "T1" "d1"
          ∧ p.1 = "d2"
          ∧ Device.lastNoise p.2 = None)
  ∧ checkForMismatch devs "d1" = [possible_sensor_issue "d1" "T1" 70 [("d2", 0%float)]].
Proof.
  intros devs.
  pose (D := default Device.empty (Assoc.lookup "d1" devs)).
  pose (p := default ("", Device.empty) (head devs)).
  assert (HD : Assoc.lookup "d1" devs = Some D) by reflexivity.
  assert (Htable : Device.tableId D = Some "T1") by reflexivity.
  assert (Hne : "T1" ≠ "") by done.
  assert (Hloud : Js.ge (Device.lastNoise D) (Some 65%float) = true) by reflexivity.
  assert (Hp : p ∈ peers devs "T1" "d1").
  { change (peers devs "T1" "d1") with [p]. apply list_elem_of_here. }
  assert (Hundefined : Device.lastNoise p.2 = None) by reflexivity.
  assert (Hrest : ∀ q, q ∈ peers devs "T1" "d1" →
                       Device.lastNoise q.2 = None ∨ quiet q.2 = true).
  { change (peers devs "T1" "d1") with [p].
    intros q Hq%list_elem_of_singleton. subst q. by left. }
  split; [by exists D, p|].
  destruct (peer_without_reading_counts_as_zero
              devs "d1" D "T1" p HD Htable Hne Hloud Hp Hundefined Hrest)
    as (_ & _ & x & Hx & -> & _).
  injection Hx as <-. reflexivity.
Defined.

End PeerConsistency.


(** ** The registry along a run *)

Section Registry.
Implicit Types (st : State) (i : Input) (inputs : list Input).

Lemma step_message st ws msg now :
  (step st (message ws msg now)).1 = (on_message st ws msg now).1.
Proof. reflexivity. Qed.

(** Only the message handler writes to the registry. *)
Lemma step_devices_other st i :
  (∀ ws msg now, i ≠ message ws msg now) → devices (step st i).1 = devices st.
Proof. destruct i; intros H; try reflexivity. by destruct (H ws msg now). Qed.

Lemma on_message_keys st ws msg now :
  Assoc.keys (devices (on_message st ws msg now).1) = Assoc.keys (devices st)
  ∨ ∃ deviceId data,
      accepts msg deviceId data
      ∧ (deviceId ∉ Assoc.keys (devices st))
      ∧ Assoc.keys (devices (on_message st ws msg now).1)
        = (Assoc.keys (devices st) ++ [deviceId]).
Proof.
  destruct (accepted_or_rejected msg) as [(deviceId & data & Hacc)|Hrej].
  - rewrite (keys_after_message _ _ _ _ _ _ Hacc).
    destruct (Assoc.lookup deviceId (devices st)) eqn:E; [by left|].
    right. exists deviceId, data. by rewrite <- AssocFacts.lookup_None.
  - left. by rewrite (on_message_rejected _ _ _ _ Hrej).
Qed.

Lemma step_keys st i :
  Assoc.keys (devices (step st i).1) = Assoc.keys (devices st)
  ∨ ∃ ws msg now deviceId data,
      i = message ws msg now
      ∧ accepts msg deviceId data
      ∧ (deviceId ∉ Assoc.keys (devices st))
      ∧ Assoc.keys (devices (step st i).1) = (Assoc.keys (devices st) ++ [deviceId]).
Proof.
  destruct i; try by left.
  rewrite step_message.
  destruct (on_message_keys st ws msg now) as [|(deviceId & data & ? & ? & ?)];
    [by left|].
  right. by exists ws, msg, now, deviceId, data.
Qed.

Lemma run_snoc st inputs i : run st (inputs ++ [i]) = (step (run st inputs) i).1.
Proof. unfold run. by rewrite foldl_app. Qed.

Lemma run_cons st inputs i : run st (i :: inputs) = run (step st i).1 inputs.
Proof. reflexivity. Qed.

Lemma run_keys_prefix st inputs :
  Assoc.keys (devices st) `prefix_of` Assoc.keys (devices (run st inputs)).
Proof.
  revert st. induction inputs as [|i inputs IH]; intros st; [done|].
  rewrite run_cons. etrans; [|apply IH].
  destruct (step_keys st i) as [->|(ws & msg & now & deviceId & data & _ & _ & _ & ->)];
    [done|]. by apply prefix_app_r.
Qed.

(** C9.  Along any sequence of inputs (messages, pongs, closes, errors,
    sweeps with their forced terminations, the window closing) the ids
    of the registry only grow: the ids present before are still
    present, in the same order, after it.  Every input other than a
    message, a close or a sweep in particular, leaves the whole registry
    as it was, so the entry of a device outlives its connection.  An id
    that a step adds was absent before and is the [deviceId] of the
    accepted message handled by that step. *)
Theorem registry_never_shrinks st inputs :
  Assoc.keys (devices st) `prefix_of` Assoc.keys (devices (run st inputs))
  ∧ (∀ id, is_Some (Assoc.lookup id (devices st)) →
           is_Some (Assoc.lookup id (devices (run st inputs))))
  ∧ (∀ ws, devices (step st (close ws)).1 = devices st)
  ∧ (∀ now, devices (step st (interval now)).1 = devices st)
  ∧ (∀ i, (∀ ws msg now, i ≠ message ws msg now) → devices (step st i).1 = devices st)
  ∧ (∀ i id, id ∈ Assoc.keys (devices (step st i).1) →
             id ∉ Assoc.keys (devices st) →
             ∃ ws msg now data, i = message ws msg now ∧ accepts msg id data).
Proof.
  split; [apply run_keys_prefix|]. split; [|split; [done|split; [done|split]]].
  - intros id Hid.
    destruct (Assoc.lookup id (devices (run st inputs))) eqn:E; [done|].
    apply AssocFacts.lookup_None in E. destruct E.
    destruct (run_keys_prefix st inputs) as [more ->].
    apply elem_of_app. left.
    destruct (decide (id ∈ Assoc.keys (devices st))) as [|Hnot]; [done|].
    apply AssocFacts.lookup_None in Hnot. rewrite Hnot in Hid. by destruct Hid.
  - apply step_devices_other.
  - intros i id Hin Hnot.
    destruct (step_keys st i)
      as [Heq|(ws & msg & now & deviceId & data & -> & Hacc & _ & Heq)];
      rewrite Heq in Hin; [done|].
    apply elem_of_app in Hin as [|Hin%list_elem_of_singleton]; [done|]. subst id.
    by exists ws, msg, now, data.
Qed.

(** *** What holds of every reachable registry *)

Lemma reachable_NoDup st : reachable st → NoDup (Assoc.keys (devices st)).
Proof.
  induction 1 as [window trained|st i _ IH _]; [by apply NoDup_nil|].
  destruct (step_keys st i)
    as [->|(ws & msg & now & deviceId & data & _ & _ & Hnew & ->)]; [done|].
  apply NoDup_app. split; [done|]. split; [|apply NoDup_singleton].
  intros id Hid ->%list_elem_of_singleton. done.
Qed.

Lemma entry_after_lastSeen st deviceId data ws now :
  Device.lastSeen (entry_after st deviceId data ws now) = Some now.
Proof.
  unfold entry_after, with_sound.
  by destruct (soundClassifier st), (Msg.audioFeatures data),
    (Js.truthy_str (Msg.soundType data)).
Qed.

Lemma reachable_lookup_stamped st :
  reachable st →
  ∀ id d, Assoc.lookup id (devices st) = Some d →
          ∃ t, Device.lastSeen d = Some t ∧ (0 < t)%Z.
Proof.
  induction 1 as [window trained|st i _ IH Hclock]; [done|].
  destruct i as [ws|ws|ws msg now|ws|ws|now|]; try exact IH.
  rewrite step_message. simpl in Hclock. intros id d.
  destruct (accepted_or_rejected msg) as [(deviceId & data & Hacc)|Hrej];
    [|rewrite (on_message_rejected _ _ _ _ Hrej); apply IH].
  rewrite (lookup_after_message _ _ _ _ _ _ _ Hacc).
  case_decide; [|apply IH]. intros [= <-]. exists now.
  by rewrite entry_after_lastSeen.
Qed.

Lemma reachable_stamped st : reachable st → stamped (devices st).
Proof.
  intros Hreach [id d] Hin. simpl.
  apply (reachable_lookup_stamped st Hreach id).
  apply AssocFacts.elem_lookup; [by apply reachable_NoDup | done].
Qed.

Lemma reachable_run st inputs :
  reachable st → Forall clock_ok inputs → reachable (run st inputs).
Proof.
  intros Hreach Hclock. revert st Hreach.
  induction Hclock as [|i inputs Hi _ IH]; intros st Hreach; [done|].
  rewrite run_cons. apply IH. by constructor.
Qed.

End Registry.

(** ** The inactivity rule *)

Section Inactivity.
Implicit Types (st : State) (devs : Assoc.t Device.t) (now : Z).

Lemma inactivity_sweep_stamped devs now :
  stamped devs →
  inactivity_sweep devs now
  = offline_notice <$> List.filter (λ e, overdue now e.2) devs.
Proof.
  unfold inactivity_sweep. induction devs as [|e devs IH]; intros Hst; [done|].
  assert (inactive now e.2 = overdue now e.2) as Hsame.
  { destruct (Hst e) as (t & Ht & Hpos); [by left|].
    unfold inactive, overdue. rewrite Ht.
    by rewrite (proj2 (Z.eqb_neq t 0)) by lia. }
  cbn [omap list_omap List.filter]. rewrite Hsame.
  rewrite IH by (intros e' He'; apply Hst; by right).
  by destruct (overdue now e.2).
Qed.

Lemma elem_of_inactivity_sweep devs now id table :
  stamped devs →
  device_offline id table ∈ inactivity_sweep devs now
  ↔ ∃ d, (id, d) ∈ devs ∧ Device.tableId d = table ∧ overdue now d = true.
Proof.
  intros Hst. rewrite (inactivity_sweep_stamped _ _ Hst), list_elem_of_fmap. split.
  - intros ([id' d] & [= -> ->] & Hin%list_elem_of_In%filter_In).
    destruct Hin as [Hin%list_elem_of_In Hover]. by exists d.
  - intros (d & Hin & <- & Hover). exists (id, d). split; [done|].
    apply list_elem_of_In, filter_In. by rewrite <- list_elem_of_In.
Qed.

Lemma overdue_later now now' d :
  (now ≤ now')%Z → overdue now d = true → overdue now' d = true.
Proof.
  unfold overdue. destruct (Device.lastSeen d); [|done].
  rewrite !Z.ltb_lt. lia.
Qed.

End Inactivity.


Section InactivityRule.
Implicit Types (st : State) (now : Z).

Lemma on_message_mainWindow_eq st ws msg t :
  mainWindow (on_message st ws msg t).1 = mainWindow st.
Proof.
  destruct (accepted_or_rejected msg) as [(deviceId & data & Hacc)|Hrej].
  - by rewrite (on_message_accepted _ _ _ _ _ _ Hacc).
  - by rewrite (on_message_rejected _ _ _ _ Hrej).
Qed.

Lemma send_in_sweep_effects st now ev :
  send ev ∈ (step st (interval now)).2
  ↔ mainWindow st = true ∧ ev ∈ inactivity_sweep (devices st) now.
Proof.
  cbn [step on_interval snd]. rewrite elem_of_app. unfold forward, probes. split.
  - intros [Hfwd|Hprobe].
    + destruct (mainWindow st); [|by apply elem_of_nil in Hfwd].
      apply list_elem_of_fmap in Hfwd as (ev' & [= <-] & Hin). done.
    + apply list_elem_of_fmap in Hprobe as ([ws []] & Heq & _); discriminate Heq.
  - intros [-> Hin]. left. apply list_elem_of_fmap. by exists ev.
Qed.

Lemma inactive_later now now' d :
  (now ≤ now')%Z → inactive now d = true → inactive now' d = true.
Proof.
  unfold inactive, INACTIVITY_MS. destruct (Device.lastSeen d) as [t|]; [|done].
  destruct (t =? 0)%Z; [done|]. rewrite !Z.ltb_lt. lia.
Qed.

Lemma elem_of_inactivity_sweep_inv devs now id table :
  device_offline id table ∈ inactivity_sweep devs now
  ↔ ∃ d, (id, d) ∈ devs ∧ Device.tableId d = table ∧ inactive now d = true.
Proof.
  unfold inactivity_sweep. rewrite list_elem_of_omap. split.
  - intros ([id' d] & Hin & Heq). simpl in Heq.
    destruct (inactive now d) eqn:E; [|discriminate Heq].
    injection Heq as -> <-. by exists d.
  - intros (d & Hin & <- & Hinactive). exists (id, d). split; [done|]. simpl.
    by rewrite Hinactive.
Qed.

(** Inputs that are not accepted messages of a device leave its entry as
    it was. *)
Lemma silent_step st deviceId i :
  silent deviceId i →
  Assoc.lookup deviceId (devices (step st i).1) = Assoc.lookup deviceId (devices st).
Proof.
  destruct i as [ws|ws|ws msg t|ws|ws|t|]; try done. intros Hsilent.
  rewrite step_message.
  destruct (accepted_or_rejected msg) as [(id & data & Hacc)|Hrej];
    [|by rewrite (on_message_rejected _ _ _ _ Hrej)].
  rewrite (lookup_after_message _ _ _ _ _ _ _ Hacc).
  case_decide; [|done]. subst id. by destruct (Hsilent data).
Qed.

Lemma silent_run st deviceId inputs :
  Forall (silent deviceId) inputs →
  Assoc.lookup deviceId (devices (run st inputs))
  = Assoc.lookup deviceId (devices st).
Proof.
  intros Hsilent. revert st.
  induction Hsilent as [|i inputs Hi _ IH]; intros st; [done|].
  by rewrite run_cons, IH, silent_step.
Qed.

(** C6 fails as stated: the device [d1] was last seen at 1000 and the
    window has been closed; the sweep at 17000, 16000 ms later, sends no
    [device-offline] event, only the ping of the open connection. *)
Lemma overdue_device_without_window_is_not_reported :
  let st := run (init true true)
              [connection 1;
               message 1 (Example.frame (Example.reading "d1" "T1" 50 900)) 1000;
               window_closed] in
  Assoc.lookup "d1" (devices st) ≫= Device.lastSeen = Some 1000%Z
  ∧ (15000 <? 17000 - 1000)%Z = true
  ∧ (step st (interval 17000)).2 = [ping 1].
Proof. repeat split; reflexivity. Qed.

(** C6, amended.  In every state reached from start-up whose registry
    holds ordinary ids only, a sweep sends to the renderer, while a
    window exists, one [device-offline] event carrying [deviceId] and
    [tableId] for each registry entry whose [lastSeen] is more than 15000
    ms before the sweep's clock reading, in registry order, and no other
    event; without a window it sends none.  The sweep leaves the registry
    as it was.  An event sent for a device is sent again by any later
    sweep, whatever inputs arrive in between, as long as none of them is
    an accepted message of that device and the window still exists.
    Once a message of the device is accepted at time [t], a sweep at time
    [now'] reports the device exactly when [now' - t > 15000]. *)
Theorem offline_sent_for_each_overdue_device
    st now (Hreach : reachable st) (Hplain : plain (devices st)) :
  events_sent (step st (interval now)).2
  = (if mainWindow st
     then offline_notice <$> List.filter (λ e, overdue now e.2) (devices st)
     else [])
  ∧ devices (step st (interval now)).1 = devices st
  ∧ (∀ between now' deviceId table,
       (now ≤ now')%Z →
       Forall (silent deviceId) between →
       Forall ordinary_input between →
       mainWindow (run st (interval now :: between)) = true →
       send (device_offline deviceId table) ∈ (step st (interval now)).2 →
       send (device_offline deviceId table)
       ∈ (step (run st (interval now :: between)) (interval now')).2)
  ∧ (∀ ws msg t deviceId data now',
       accepts msg deviceId data → ordinary deviceId → (0 < t)%Z →
       mainWindow st = true →
       (∃ table,
           send (device_offline deviceId table)
           ∈ (step (step st (message ws msg t)).1 (interval now')).2)
       ↔ (15000 < now' - t)%Z).
Proof.
  pose proof (reachable_stamped st Hreach) as Hst.
  split; [|split; [done|split]].
  - rewrite step_interval_effects, events_sent_app, events_sent_forward,
      events_sent_probes, app_nil_r.
    cbn [on_interval snd]. rewrite (inactivity_sweep_stamped _ _ Hst).
    by destruct (mainWindow st).
  - intros between now' deviceId table Hlater Hsilent _ Hwindow.
    rewrite !send_in_sweep_effects, !elem_of_inactivity_sweep_inv.
    intros (_ & d & Hin & Htable & Hinactive). split; [done|]. exists d.
    split; [|split; [done | by apply (inactive_later now)]].
    apply AssocFacts.lookup_Some_elem.
    rewrite run_cons, (silent_run _ _ _ Hsilent).
    change (devices (step st (interval now)).1) with (devices st).
    apply AssocFacts.elem_lookup; [by apply reachable_NoDup | done].
  - intros ws msg t deviceId data now' Hacc _ Ht Hwindow.
    assert (reachable (step st (message ws msg t)).1) as Hreach' by by constructor.
    pose proof (lookup_after_message st ws msg t deviceId data deviceId Hacc) as Hlook.
    rewrite decide_True in Hlook by done.
    assert (inactive now' (entry_after st deviceId data ws t) = true
            ↔ (15000 < now' - t)%Z) as Hover.
    { unfold inactive, INACTIVITY_MS. rewrite entry_after_lastSeen.
      rewrite (proj2 (Z.eqb_neq t 0)) by lia. apply Z.ltb_lt. }
    rewrite <- Hover. split.
    + intros (table & Hsend). apply send_in_sweep_effects in Hsend as [_ Hin].
      apply elem_of_inactivity_sweep_inv in Hin as (d & Hin & _ & Hd).
      apply AssocFacts.elem_lookup in Hin; [|by apply reachable_NoDup].
      rewrite step_message in Hin. congruence.
    + intros Hd. exists (Device.tableId (entry_after st deviceId data ws t)).
      apply send_in_sweep_effects. split.
      * rewrite step_message. by rewrite on_message_mainWindow_eq.
      * apply elem_of_inactivity_sweep_inv.
        exists (entry_after st deviceId data ws t).
        split; [|done]. apply AssocFacts.lookup_Some_elem. by rewrite step_message.
Qed.

Lemma offline_sent_for_each_overdue_device_witness :
  let st := run (init true true)
              [connection 1;
               message 1 (Example.frame (Example.reading "d1" "T1" 50 900)) 1000] in
  reachable st
  ∧ plain (devices st)
  ∧ events_sent (step st (interval 17000)).2 = [device_offline "d1" (Some "T1")].
Proof.
  intros st.
  assert (Hreach : reachable st).
  { apply reachable_run; [constructor|]. repeat constructor. }
  assert (Hplain : plain (devices st)) by (repeat constructor).
  split; [exact Hreach|]. split; [exact Hplain|].
  rewrite (proj1 (offline_sent_for_each_overdue_device st 17000 Hreach Hplain)).
  reflexivity.
Defined.

End InactivityRule.

(** ** Connection liveness *)

Section Liveness.
Implicit Types (st : State) (ws : nat).

Lemma lookup_liveness_sweep (cs : gmap nat bool) ws :
  liveness_sweep cs !! ws
  = match cs !! ws with
    | Some true => Some false
    | _ => None
    end.
Proof.
  unfold liveness_sweep. rewrite lookup_omap.
  by destruct (cs !! ws) as [[]|].
Qed.

Lemma elem_of_probes (cs : gmap nat bool) ws (isAlive : bool) :
  cs !! ws = Some isAlive →
  (if isAlive then ping ws else terminate ws) ∈ probes cs.
Proof.
  intros H. unfold probes. apply list_elem_of_fmap.
  exists (ws, isAlive). split; [done|]. by apply elem_of_map_to_list.
Qed.

(** Without a pong from it, a connection whose flag is not set does not
    get it set. *)
Lemma not_alive_step st ws i :
  no_pong_from ws i →
  clients st !! ws ≠ Some true →
  clients (step st i).1 !! ws ≠ Some true.
Proof.
  destruct i as [ws'|ws'|ws' msg now|ws'|ws'|now|]; simpl; intros Hi Hflag; try done.
  - by rewrite lookup_insert_ne.
  - by rewrite lookup_alter_ne.
  - destruct (accepted_or_rejected msg) as [(deviceId & data & Hacc)|Hrej].
    + by rewrite (on_message_accepted _ _ _ _ _ _ Hacc).
    + by rewrite (on_message_rejected _ _ _ _ Hrej).
  - destruct (decide (ws' = ws)) as [->|Hne];
      [by rewrite lookup_delete_eq | by rewrite lookup_delete_ne].
  - rewrite lookup_liveness_sweep. by destruct (clients st !! ws) as [[]|].
Qed.

Lemma not_alive_run st ws inputs :
  Forall (no_pong_from ws) inputs →
  clients st !! ws ≠ Some true →
  clients (run st inputs) !! ws ≠ Some true.
Proof.
  intros Hin. revert st. induction Hin as [|i inputs Hi _ IH]; intros st Hflag; [done|].
  rewrite run_cons. apply IH. by apply not_alive_step.
Qed.

Lemma on_message_clients st ws msg now :
  clients (on_message st ws msg now).1 = clients st.
Proof.
  destruct (accepted_or_rejected msg) as [(deviceId & data & Hacc)|Hrej].
  - by rewrite (on_message_accepted _ _ _ _ _ _ Hacc).
  - by rewrite (on_message_rejected _ _ _ _ Hrej).
Qed.

(** C7 fails as stated: the connection 1 is accepted, swept (its flag
    is cleared and it is pinged), then sends a well-formed reading; its
    flag is still false after that message, and the next sweep
    terminates it. *)
Lemma payload_does_not_set_liveness_flag :
  let st := run (init true true)
              [connection 1; interval 5000;
               message 1 (Example.frame (Example.reading "d1" "T1" 50 5100)) 6000] in
  clients st !! 1 = Some false
  ∧ (step st (interval 10000)).2 = [terminate 1]
  ∧ clients (step st (interval 10000)).1 !! 1 = None.
Proof. repeat split; reflexivity. Qed.

(** C7, amended.  The flag of a connection is set true when it is
    accepted and when a pong arrives from it, and by nothing else: an
    inbound message leaves every flag as it was.  A sweep terminates
    the connections whose flag is false and drops them from the
    server's set; it clears the flag of the others and pings them.  So
    a connection from which no pong arrives between two sweeps is gone
    after the second, whatever messages it sent in between. *)
Theorem liveness_flag_set_by_accept_and_pong_only st ws :
  clients (step st (connection ws)).1 !! ws = Some true
  ∧ clients (step st (pong ws)).1 !! ws = (λ _, true) <$> clients st !! ws
  ∧ (∀ from msg now, clients (step st (message from msg now)).1 = clients st)
  ∧ (∀ now,
       clients (step st (interval now)).1 !! ws
       = match clients st !! ws with
         | Some true => Some false
         | _ => None
         end)
  ∧ (∀ now, clients st !! ws = Some true → ping ws ∈ (step st (interval now)).2)
  ∧ (∀ now, clients st !! ws = Some false → terminate ws ∈ (step st (interval now)).2)
  ∧ (∀ now between,
       Forall (no_pong_from ws) between →
       clients
         (run st (interval now :: between ++ [interval (now + SWEEP_INTERVAL_MS)]))
       !! ws = None).
Proof.
  split; [apply lookup_insert_eq|]. split; [apply lookup_alter_eq|].
  split; [intros; apply on_message_clients|].
  split; [intros; apply lookup_liveness_sweep|].
  split; [|split].
  - intros now H. cbn [step on_interval snd]. apply elem_of_app. right.
    apply (elem_of_probes _ _ true H).
  - intros now H. cbn [step on_interval snd]. apply elem_of_app. right.
    apply (elem_of_probes _ _ false H).
  - intros now between Hbetween. rewrite run_cons, run_snoc.
    set (st1 := (step st (interval now)).1).
    assert (clients st1 !! ws ≠ Some true) as H1.
    { subst st1. cbn [step on_interval fst clients set_clients].
      rewrite lookup_liveness_sweep. by destruct (clients st !! ws) as [[]|]. }
    pose proof (not_alive_run st1 ws between Hbetween H1) as H2.
    cbn [step on_interval fst clients set_clients].
    rewrite lookup_liveness_sweep.
    by destruct (clients (run st1 between) !! ws) as [[]|].
Qed.

End Liveness.

